(** * SocialSentiment dashboard: the aggregation logic of [Dashboard.tsx]

    A shallow embedding of [src/components/Dashboard.tsx]: the keyword
    extractor [extractTopKeywords], the reductions of [handleAnalyze]
    (overall score, distribution, confidence list, time series) and the
    workflow of [handleAnalyze] itself over the component's React state.

    - A JavaScript string is the list of its UTF-16 code units.
    - A JavaScript number holding a score is an IEEE 754 binary64 value, which
      is Rocq's primitive [float]; counters that only ever hold small
      non-negative integers are [nat] or [N].
    - The object literal used as a word counter is modelled with its own
      properties in creation order and with what it inherits from
      [Object.prototype].
    - Imported functions ([fetchTweets], [analyzeSentiment], [formatDistance])
      and the wall clock are parameters. *)

From Stdlib Require Import List NArith ZArith Bool Lia String Ascii.
From Stdlib Require Import Permutation Sorted Floats.
Import ListNotations.

Set Warnings "-inexact-float".
Set Implicit Arguments.

(* ===================================================================== *)
(** * Part I: definitions                                                  *)
(* ===================================================================== *)

(** ** JavaScript strings *)

Definition jsstring := list N.

(** The code units of an ASCII literal. *)
Definition js (s : string) : jsstring :=
  map N_of_ascii (list_ascii_of_string s).

(** [a === b] on strings. *)
Fixpoint strictEquals (a b : jsstring) : bool :=
  match a, b with
  | [], [] => true
  | x :: a', y :: b' => (x =? y)%N && strictEquals a' b'
  | _, _ => false
  end.

(** The class [\s] of a regular expression: WhiteSpace and LineTerminator. *)
Definition isWhiteSpace (c : N) : bool :=
  ((9 <=? c) && (c <=? 13) || (c =? 32) || (c =? 160) || (c =? 5760)
   || (8192 <=? c) && (c <=? 8202) || (c =? 8232) || (c =? 8233)
   || (c =? 8239) || (c =? 8287) || (c =? 12288) || (c =? 65279))%N.

(** [s.split(/\s+/)]. [cur] is the piece being read and [inSeparator] tells
    that the previous code unit belonged to a separator; a separator at
    either end of the string leaves an empty piece there, and the empty
    string splits into one empty piece. *)
Fixpoint splitFrom (inSeparator : bool) (cur : jsstring) (s : jsstring)
  : list jsstring :=
  match s with
  | [] => [cur]
  | c :: rest =>
      if isWhiteSpace c then
        if inSeparator then splitFrom true cur rest
        else cur :: splitFrom true [] rest
      else splitFrom false (cur ++ [c]) rest
  end.

Definition split (s : jsstring) : list jsstring := splitFrom false [] s.

(** [s.trim()]: white space removed at both ends. *)
Fixpoint trimStart (s : jsstring) : jsstring :=
  match s with
  | c :: rest => if isWhiteSpace c then trimStart rest else s
  | [] => []
  end.

Definition trim (s : jsstring) : jsstring :=
  rev (trimStart (rev (trimStart s))).

(** [toLowerCase] on Basic Latin text: A-Z become a-z. On a text whose code
    units are all below 128 this is what [String.prototype.toLowerCase]
    returns; the general theorems below take [toLowerCase] as a parameter. *)
Definition toLowerCaseAscii (s : jsstring) : jsstring :=
  map (fun c => if ((65 <=? c) && (c <=? 90))%N then (c + 32)%N else c) s.

(** ** The word counter: an object literal used as a map *)

(** The values that [acc[word]] can read or store here. *)
Inductive value :=
| VNumber (n : N)             (* a count *)
| VString (s : jsstring)      (* a string *)
| VBuiltin (name : jsstring)  (* a built-in function, by its name *)
| VObjectPrototype.           (* the object Object.prototype *)

(** The function-valued properties of [Object.prototype], with the name of
    the function each one holds. *)
Definition objectPrototypeMethods : list (jsstring * jsstring) :=
  map (fun p => (js (fst p), js (snd p)))
    [ ("constructor", "Object");
      ("hasOwnProperty", "hasOwnProperty");
      ("isPrototypeOf", "isPrototypeOf");
      ("propertyIsEnumerable", "propertyIsEnumerable");
      ("toLocaleString", "toLocaleString");
      ("toString", "toString");
      ("valueOf", "valueOf");
      ("__defineGetter__", "__defineGetter__");
      ("__defineSetter__", "__defineSetter__");
      ("__lookupGetter__", "__lookupGetter__");
      ("__lookupSetter__", "__lookupSetter__") ]%string.

Fixpoint lookup (A : Type) (k : jsstring) (o : list (jsstring * A)) : option A :=
  match o with
  | [] => None
  | (k', v) :: o' => if strictEquals k k' then Some v else lookup k o'
  end.

(** What [{}] inherits: [__proto__] is an accessor whose getter returns
    [Object.prototype]; the other properties hold built-in functions. *)
Definition objectPrototypeGet (k : jsstring) : option value :=
  if strictEquals k (js "__proto__") then Some VObjectPrototype
  else option_map VBuiltin (lookup k objectPrototypeMethods).

(** An object created by [{}]: its own properties, in creation order. *)
Definition object := list (jsstring * value).

(** [o[k]]: an own property, else the inherited one, else [undefined]. *)
Definition getProperty (o : object) (k : jsstring) : option value :=
  match lookup k o with
  | Some v => Some v
  | None => objectPrototypeGet k
  end.

Fixpoint assign (o : object) (k : jsstring) (v : value) : object :=
  match o with
  | [] => [(k, v)]
  | (k', v') :: o' =>
      if strictEquals k k' then (k', v) :: o' else (k', v') :: assign o' k v
  end.

(** [o[k] = v]. An existing own property keeps its place, a new one is added
    last. Assigning to [__proto__] runs the inherited setter, which ignores
    a value that is not an object and creates no property; the reducer only
    assigns numbers and strings, and the model keeps the object unchanged
    for the other values too. *)
Definition setProperty (o : object) (k : jsstring) (v : value) : object :=
  if strictEquals k (js "__proto__") then o else assign o k v.

(** [ToBoolean]. *)
Definition toBoolean (v : value) : bool :=
  match v with
  | VNumber n => negb (n =? 0)%N
  | VString s => match s with [] => false | _ => true end
  | VBuiltin _ | VObjectPrototype => true
  end.

(** [x || 0] where [x] is the result of a property read. *)
Definition orZero (x : option value) : value :=
  match x with
  | Some v => if toBoolean v then v else VNumber 0
  | None => VNumber 0
  end.

(** The text [Function.prototype.toString] gives for a built-in function
    (the rendering of V8; the standard fixes only its shape). *)
Definition nativeSource (name : jsstring) : jsstring :=
  js "function " ++ name ++ js "() { [native code] }".

(** [v + 1]: numeric addition on a number; any other operand is turned into
    a string ([ToPrimitive], then [ToString]) and the text of [1] is
    appended. *)
Definition plusOne (v : value) : value :=
  match v with
  | VNumber n => VNumber (n + 1)
  | VString s => VString (s ++ js "1")
  | VBuiltin name => VString (nativeSource name ++ js "1")
  | VObjectPrototype => VString (js "[object Object]" ++ js "1")
  end.

(** ** Array.prototype.sort *)

(** The number a comparator returns: an integer or NaN ([None]). *)
Definition comparatorResult := option Z.

(** The sort treats a NaN from the comparator as [+0]; [x] is placed after
    [y] when the comparator is positive on [(x, y)]. *)
Definition sortsAfter (A : Type) (comparefn : A -> A -> comparatorResult) (x y : A)
  : bool :=
  match comparefn x y with
  | Some v => (0 <? v)%Z
  | None => false
  end.

Fixpoint insertSorted (A : Type) (comparefn : A -> A -> comparatorResult)
  (x : A) (l : list A) : list A :=
  match l with
  | [] => [x]
  | y :: l' =>
      if sortsAfter comparefn x y then y :: insertSorted comparefn x l'
      else x :: l
  end.

(** [l.sort(comparefn)] as a stable insertion sort. When [comparefn] is a
    consistent comparator the result of a stable sort is unique, so every
    conforming engine returns this list; for an inconsistent comparator the
    standard leaves the order to the engine and the model fixes one. *)
Definition sort (A : Type) (comparefn : A -> A -> comparatorResult) (l : list A)
  : list A :=
  fold_right (insertSorted comparefn) [] l.

(** ** Object.entries *)

Definition isDigit (c : N) : bool := ((48 <=? c) && (c <=? 57))%N.

Definition decimalValue (s : jsstring) : N :=
  fold_left (fun acc c => (10 * acc + (c - 48))%N) s 0%N.

(** An array index: the canonical decimal text of an integer in
    [0, 2^32 - 2]. *)
Definition arrayIndex (k : jsstring) : option N :=
  match k with
  | [] => None
  | c :: rest =>
      if forallb isDigit k
         && (negb (c =? 48)%N || match rest with [] => true | _ => false end)
         && (decimalValue k <=? 4294967294)%N
      then Some (decimalValue k) else None
  end.

Definition isArrayIndex (k : jsstring) : bool :=
  match arrayIndex k with Some _ => true | None => false end.

Definition indexOf (k : jsstring) : N :=
  match arrayIndex k with Some i => i | None => 0%N end.

Definition byIndex (A : Type) (a b : jsstring * A) : comparatorResult :=
  Some (Z.of_N (indexOf (fst a)) - Z.of_N (indexOf (fst b)))%Z.

(** [Object.entries(o)]: the own properties whose key is an array index, in
    ascending numeric order, then the others in creation order. *)
Definition entries (A : Type) (o : list (jsstring * A)) : list (jsstring * A) :=
  sort (@byIndex A) (filter (fun e => isArrayIndex (fst e)) o)
  ++ filter (fun e => negb (isArrayIndex (fst e))) o.

(** ** extractTopKeywords (Dashboard.tsx, lines 72-89) *)

Record KeywordCount := { keyword : jsstring; count : value }.

Definition stopWords : list jsstring :=
  map js ["the"; "be"; "to"; "of"; "and"; "a"; "in"; "that"; "have"]%string.

(** [stopWords.has(word)]. *)
Definition has (members : list jsstring) (word : jsstring) : bool :=
  existsb (strictEquals word) members.

(** [ToNumber] of a stored count. A string is stored only as the source
    text of a built-in followed by [1]s (lemma [wordCounts_stored]), which
    is no numeric literal, hence NaN. *)
Definition toNumber (v : value) : comparatorResult :=
  match v with
  | VNumber n => Some (Z.of_N n)
  | _ => None
  end.

(** [(a, b) => b[1] - a[1]]. *)
Definition byCountDescending (a b : jsstring * value) : comparatorResult :=
  match toNumber (snd b), toNumber (snd a) with
  | Some y, Some x => Some (y - x)%Z
  | _, _ => None
  end.

(** [acc[word] = (acc[word] || 0) + 1; return acc]. *)
Definition countWord (acc : object) (word : jsstring) : object :=
  setProperty acc word (plusOne (orZero (getProperty acc word))).

Definition wordCounts (words : list jsstring) : object :=
  fold_left countWord words [].

Section KeywordExtractor.

Variable toLowerCase : jsstring -> jsstring.

Definition keep (word : jsstring) : bool :=
  negb (has stopWords word) && (2 <? List.length word).

Definition words (texts : list jsstring) : list jsstring :=
  flat_map (fun text => filter keep (split (toLowerCase text))) texts.

Definition extractTopKeywords (texts : list jsstring) : list KeywordCount :=
  map (fun e => {| keyword := fst e; count := snd e |})
    (firstn 10 (sort byCountDescending (entries (wordCounts (words texts))))).

End KeywordExtractor.

(** ** The reductions of handleAnalyze (Dashboard.tsx, lines 41-58) *)

(** What [analyzeSentiment] resolves to; [confidence] may be missing. *)
Record SentimentResult := { score : float; confidence : option float }.

(** [l.length] as a number. *)
Definition lengthNumber (A : Type) (l : list A) : float :=
  of_uint63 (Uint63.of_Z (Z.of_nat (List.length l))).

(** Line 41:
    [sentiments.reduce((acc, curr) => acc + curr.score, 0) / sentiments.length]. *)
Definition overallScore (sentiments : list SentimentResult) : float :=
  (fold_left (fun acc curr => acc + score curr) sentiments 0
   / lengthNumber sentiments)%float.

Record Distribution := { positive : nat; neutral : nat; negative : nat }.

(** [acc.positive++], [acc.negative++] and [acc.neutral++]. *)
Definition incrementPositive (acc : Distribution) : Distribution :=
  {| positive := S (positive acc); neutral := neutral acc;
     negative := negative acc |}.

Definition incrementNegative (acc : Distribution) : Distribution :=
  {| positive := positive acc; neutral := neutral acc;
     negative := S (negative acc) |}.

Definition incrementNeutral (acc : Distribution) : Distribution :=
  {| positive := positive acc; neutral := S (neutral acc);
     negative := negative acc |}.

(** Lines 47-51, the callback of the second [reduce]. *)
Definition countSentiment (acc : Distribution) (curr : SentimentResult)
  : Distribution :=
  if (0.3 <? score curr)%float then incrementPositive acc
  else if (score curr <? -0.3)%float then incrementNegative acc
  else incrementNeutral acc.

(** Lines 47-52. *)
Definition distribution (sentiments : list SentimentResult) : Distribution :=
  fold_left countSentiment sentiments
    {| positive := 0; neutral := 0; negative := 0 |}.

(** Lines 125-126, the label under the overall score. *)
Definition overallLabel (overallScore : float) : jsstring :=
  if (0.3 <? overallScore)%float then js "Positive"
  else if (overallScore <? -0.3)%float then js "Negative"
  else js "Neutral".

(** [ToBoolean] of a number: [+0], [-0] and NaN are false. *)
Definition numberToBoolean (v : float) : bool :=
  negb (is_zero v || is_nan v).

(** [s.confidence || 1]. *)
Definition confidenceOrOne (s : SentimentResult) : float :=
  match confidence s with
  | Some c => if numberToBoolean c then c else 1%float
  | None => 1%float
  end.

(** Line 58. *)
Definition confidenceScores (sentiments : list SentimentResult) : list float :=
  map confidenceOrOne sentiments.

(** The mean as the specification words it: the sum of the values, taken in
    order from zero, over their number. *)
Definition mean (values : list float) : float :=
  (fold_left PrimFloat.add values 0 / lengthNumber values)%float.

(** ** The workflow of handleAnalyze (Dashboard.tsx, lines 25-70) *)

Record Post := { id : jsstring; text : jsstring; created_at : jsstring }.

(** What a [catch] clause receives: an [Error] with its message, or any
    other value. *)
Inductive thrown :=
| ErrorObject (message : jsstring)
| OtherValue.

Inductive Completion (A : Type) :=
| Normal (a : A)
| Throw (e : thrown).

Arguments Normal {A} a.
Arguments Throw {A} e.

Definition bind (A B : Type) (c : Completion A) (k : A -> Completion B)
  : Completion B :=
  match c with
  | Normal a => k a
  | Throw e => Throw e
  end.

Notation "x <- c ;; k" := (bind c (fun x => k))
  (at level 61, c at next level, right associativity).

Module Point.
Record t := { x : jsstring; y : float }.
End Point.

Module SentimentData.
Record t := {
  overallScore : float;
  sentimentOverTime : list Point.t;
  sentimentDistribution : Distribution;
  confidenceScores : list float;
  topKeywords : list KeywordCount
}.
End SentimentData.

(** The initial value of the [sentimentData] state (lines 17-23). *)
Definition initialSentimentData : SentimentData.t :=
  {| SentimentData.overallScore := 0%float;
     SentimentData.sentimentOverTime := [];
     SentimentData.sentimentDistribution :=
       {| positive := 0; neutral := 0; negative := 0 |};
     SentimentData.confidenceScores := [];
     SentimentData.topKeywords := [] |}.

(** The React state of the component. *)
Record State := {
  query : jsstring;
  posts : list Post;
  loading : bool;
  analyzing : bool;
  sentimentData : SentimentData.t
}.

Definition setPosts (v : list Post) (st : State) : State :=
  {| query := query st; posts := v; loading := loading st;
     analyzing := analyzing st; sentimentData := sentimentData st |}.

Definition setLoading (v : bool) (st : State) : State :=
  {| query := query st; posts := posts st; loading := v;
     analyzing := analyzing st; sentimentData := sentimentData st |}.

Definition setAnalyzing (v : bool) (st : State) : State :=
  {| query := query st; posts := posts st; loading := loading st;
     analyzing := v; sentimentData := sentimentData st |}.

Definition setSentimentData (v : SentimentData.t) (st : State) : State :=
  {| query := query st; posts := posts st; loading := loading st;
     analyzing := analyzing st; sentimentData := v |}.

(** The notifications raised through [toast]. *)
Inductive Toast :=
| ToastError (message : jsstring)
| ToastSuccess (message : jsstring).

(** Line 65: [error instanceof Error ? error.message : 'An error occurred']. *)
Definition errorMessage (error : thrown) : jsstring :=
  match error with
  | ErrorObject message => message
  | OtherValue => js "An error occurred"
  end.

(** [Promise.all]. Every input promise settles at some instant with a
    result. The combined promise rejects with the reason of the rejection
    that happens first (the earlier promise wins at equal instants), and
    fulfils with all the values, in the order of the inputs, when there is
    no rejection. *)
Fixpoint firstRejection (A : Type) (best : option (nat * thrown))
  (settled : list (nat * Completion A)) : option (nat * thrown) :=
  match settled with
  | [] => best
  | (_, Normal _) :: rest => firstRejection best rest
  | (t, Throw e) :: rest =>
      match best with
      | Some (t0, _) =>
          if t <? t0 then firstRejection (Some (t, e)) rest
          else firstRejection best rest
      | None => firstRejection (Some (t, e)) rest
      end
  end.

Fixpoint fulfilled (A : Type) (settled : list (nat * Completion A)) : list A :=
  match settled with
  | [] => []
  | (_, Normal a) :: rest => a :: fulfilled rest
  | (_, Throw _) :: rest => fulfilled rest
  end.

Definition promiseAll (A : Type) (settled : list (nat * Completion A))
  : Completion (list A) :=
  match firstRejection None settled with
  | Some (_, e) => Throw e
  | None => Normal (fulfilled settled)
  end.

(** [l.map((v, i) => f(i, v))], from index [i]. *)
Fixpoint mapFrom (A B : Type) (f : nat -> A -> B) (i : nat) (l : list A)
  : list B :=
  match l with
  | [] => []
  | v :: rest => f i v :: mapFrom f (S i) rest
  end.

(** The panel of results is rendered under this condition (line 116). *)
Definition showsResults (st : State) : bool :=
  (0 <? List.length (posts st)) && negb (loading st) && negb (analyzing st).

(** What the panel shows: the aggregate and the first five posts. *)
Definition displayed (st : State) : option (SentimentData.t * list Post) :=
  if showsResults st then Some (sentimentData st, firstn 5 (posts st))
  else None.

Section Workflow.

Variable toLowerCase : jsstring -> jsstring.

(** Dates, [new Date(text)] and date-fns's
    [formatDistance(date, now, { addSuffix: true })], which throws on an
    invalid date. *)
Variable Date : Type.
Variable newDate : jsstring -> Date.
Variable formatDistance : Date -> Date -> Completion jsstring.

(** [clock k] is what the [k]-th evaluation of [new Date()] in a run of
    the handler returns. *)
Variable clock : nat -> Date.

(** [await fetchTweets(query)]. *)
Variable fetchTweets : jsstring -> Completion (list Post).

(** The [i]-th call [analyzeSentiment(text)]: the instant at which its
    promise settles, and how. *)
Variable analyzeSentiment : nat -> jsstring -> nat * Completion SentimentResult.

(** Lines 42-45, from index [i] on. The post is read first (a missing
    post makes the property read throw), then the clock. *)
Fixpoint sentimentOverTimeFrom (fetchedPosts : list Post) (i : nat)
  (sentiments : list SentimentResult) : Completion (list Point.t) :=
  match sentiments with
  | [] => Normal []
  | s :: rest =>
      match nth_error fetchedPosts i with
      | None =>
          Throw (ErrorObject
            (js "Cannot read properties of undefined (reading 'created_at')"))
      | Some post =>
          label <- formatDistance (newDate (created_at post)) (clock i) ;;
          points <- sentimentOverTimeFrom fetchedPosts (S i) rest ;;
          Normal ({| Point.x := label; Point.y := score s |} :: points)
      end
  end.

Definition sentimentOverTime (fetchedPosts : list Post)
  (sentiments : list SentimentResult) : Completion (list Point.t) :=
  sentimentOverTimeFrom fetchedPosts 0 sentiments.

(** Lines 41-60: the value handed to [setSentimentData]. *)
Definition aggregate (fetchedPosts : list Post)
  (sentiments : list SentimentResult) : Completion SentimentData.t :=
  points <- sentimentOverTime fetchedPosts sentiments ;;
  Normal
    {| SentimentData.overallScore := overallScore sentiments;
       SentimentData.sentimentOverTime := points;
       SentimentData.sentimentDistribution := distribution sentiments;
       SentimentData.confidenceScores := confidenceScores sentiments;
       SentimentData.topKeywords :=
         extractTopKeywords toLowerCase (map text fetchedPosts) |}.

(** Lines 37-39. *)
Definition scoreAll (fetchedPosts : list Post)
  : Completion (list SentimentResult) :=
  promiseAll (mapFrom (fun i post => analyzeSentiment i (text post)) 0
                fetchedPosts).

(** Lines 33-62, the body of [try]: the state reached and the toasts
    raised, with the error of [catch] already turned into its toast. *)
Definition tryBody (st : State) : State * list Toast :=
  match fetchTweets (query st) with
  | Throw error => (st, [ToastError (errorMessage error)])
  | Normal fetchedPosts =>
      let st := setPosts fetchedPosts st in
      let st := setAnalyzing true st in
      match sentiments <- scoreAll fetchedPosts ;;
            aggregate fetchedPosts sentiments with
      | Throw error => (st, [ToastError (errorMessage error)])
      | Normal data =>
          (setSentimentData data st,
           [ToastSuccess (js "Analysis complete!")])
      end
  end.

(** Lines 25-70. *)
Definition handleAnalyze (st : State) : State * list Toast :=
  match trim (query st) with
  | [] => (st, [ToastError (js "Please enter a search query")])
  | _ :: _ =>
      let st := setLoading true st in
      let (st, toasts) := tryBody st in
      (setAnalyzing false (setLoading false st), toasts)
  end.

End Workflow.

(** ** The proxy of the development server (vite.config.ts, lines 8-17) *)

(** What is left of [s] after [prefix], when [s] starts with it. *)
Fixpoint stripPrefix (prefix s : jsstring) : option jsstring :=
  match prefix, s with
  | [], _ => Some s
  | p :: prefix', c :: s' =>
      if (p =? c)%N then stripPrefix prefix' s' else None
  | _ :: _, [] => None
  end.

(** [path.replace(/^literal/, '')] for a pattern that is one literal text
    anchored at the start: the match, if any, is removed. *)
Definition removeLeading (literal path : jsstring) : jsstring :=
  match stripPrefix literal path with
  | Some rest => rest
  | None => path
  end.

(** Line 11: [(path) => path.replace(/^\/api\/twitter/, '')]. *)
Definition rewriteTwitter (path : jsstring) : jsstring :=
  removeLeading (js "/api/twitter") path.

(** Line 16: [(path) => path.replace(/^\/api\/gemini/, '')]. *)
Definition rewriteGemini (path : jsstring) : jsstring :=
  removeLeading (js "/api/gemini") path.

(** ** A sample environment for closed examples

    Dates are seconds, [created_at] is a decimal number of seconds, and the
    label tells whether a minute has passed. *)

Definition sampleFormatDistance (date now : Z) : Completion jsstring :=
  if (now - date <? 60)%Z then Normal (js "less than a minute ago")
  else Normal (js "1 minute ago").

Definition sampleNewDate (s : jsstring) : Z := Z.of_N (decimalValue s).

Definition samplePosts : list Post :=
  [ {| id := js "1"; text := js "good day"; created_at := js "0" |};
    {| id := js "2"; text := js "fine weather"; created_at := js "0" |} ].

Definition sampleSentiments : list SentimentResult :=
  [ {| score := 0.5; confidence := Some 0.9%float |};
    {| score := 0.1; confidence := None |} ].

(** A clock that stands at second 30, and one that has moved on to second
    90 by its second reading. *)
Definition steadyClock (k : nat) : Z := 30%Z.

Definition movingClock (k : nat) : Z :=
  match k with
  | 0 => 30%Z
  | S _ => 90%Z
  end.

Definition sampleFetchTweets (q : jsstring) : Completion (list Post) :=
  Normal samplePosts.

(** The first call is answered at instant 5; the second one fails at
    instant 2. *)
Definition sampleAnalyzeSentiment (i : nat) (t : jsstring)
  : nat * Completion SentimentResult :=
  match i with
  | 0 => (5, Normal {| score := 0.5; confidence := Some 0.9%float |})
  | S _ => (2, Throw (ErrorObject (js "quota exceeded")))
  end.

Definition sampleState : State :=
  {| query := js "rocq"; posts := []; loading := false; analyzing := false;
     sentimentData := initialSentimentData |}.

(** A fetch that fails, a fetch that finds nothing, and a scorer whose
    calls all succeed. *)
Definition sampleFailingFetch (q : jsstring) : Completion (list Post) :=
  Throw (ErrorObject (js "401 Unauthorized")).

Definition sampleEmptyFetch (q : jsstring) : Completion (list Post) :=
  Normal [].

Definition sampleScorer (i : nat) (t : jsstring)
  : nat * Completion SentimentResult :=
  (i, Normal {| score := 0.5; confidence := None |}).

(** A text with twelve distinct tokens, the last of them twice. *)
Definition sampleLongText : jsstring :=
  js "a1a b2b c3c d4d e5e f6f g7g h8h i9i j0j kkk lll lll".

(** ** The properties the specification states, in its own words *)

(** Steps 1-5 of the keyword extractor: every text is lowercased and split
    on white space, stop words and tokens of fewer than three code units are
    dropped, and what is left of all the texts is pooled in order. *)
Definition pooledTokens (toLowerCase : jsstring -> jsstring)
  (texts : list jsstring) : list jsstring :=
  flat_map
    (fun text =>
       filter (fun token => negb (has stopWords token))
         (filter (fun token => 3 <=? List.length token)
            (split (toLowerCase text))))
    texts.

(** The number of occurrences of a token in the pool. *)
Definition occurrences (token : jsstring) (pool : list jsstring) : N :=
  N.of_nat (List.length (filter (strictEquals token) pool)).

(** The distinct tokens of the pool, each at its first occurrence. *)
Fixpoint firstOccurrences (pool : list jsstring) : list jsstring :=
  match pool with
  | [] => []
  | token :: rest =>
      token :: filter (fun k => negb (strictEquals k token))
                 (firstOccurrences rest)
  end.

(** The count of every distinct token, in order of first occurrence. *)
Definition tally (pool : list jsstring) : list (jsstring * N) :=
  map (fun k => (k, occurrences k pool)) (firstOccurrences pool).

(** A count as the value of an own property. *)
Definition numbered (e : jsstring * N) : jsstring * value :=
  (fst e, VNumber (snd e)).

(** The comparator of the ranking on plain counts: larger counts first. *)
Definition byOccurrences (a b : jsstring * N) : comparatorResult :=
  Some (Z.of_N (snd b) - Z.of_N (snd a))%Z.

(** The ranking of the pool: its tally, in the order in which the counter
    lists its properties, sorted by falling count. *)
Definition ranking (pool : list jsstring) : list (jsstring * N) :=
  sort byOccurrences (entries (tally pool)).

(** A numeral that does not start with the digit zero. *)
Definition noLeadingZero (s : jsstring) : Prop :=
  match s with
  | c :: _ => c <> 48%N
  | [] => True
  end.

(** [a] comes before [b] in [l]. *)
Definition precedes (A : Type) (a b : A) (l : list A) : Prop :=
  exists l1 l2 l3, l = l1 ++ a :: l2 ++ b :: l3.

(** The counts are numbers and never increase along the list. *)
Definition descendingByCount (l : list KeywordCount) : Prop :=
  exists counts,
    map count l = map VNumber counts
    /\ StronglySorted (fun n m => (m <= n)%N) counts.

(** Keywords of equal count keep the order of their first occurrences in
    the pool. *)
Definition tiesInFirstOccurrenceOrder (pool : list jsstring)
  (l : list KeywordCount) : Prop :=
  forall a b,
    precedes a b l -> count a = count b ->
    precedes (keyword a) (keyword b) (firstOccurrences pool).

(** What the reducer can store in the counter: a number, or a string that
    starts with the source text of a built-in function. *)
Definition stored (v : value) : Prop :=
  match v with
  | VNumber _ => True
  | VString s => exists name rest, s = nativeSource name ++ rest
  | VBuiltin _ | VObjectPrototype => False
  end.

(** No token of the pool names a property of [Object.prototype]. *)
Definition inheritsNothing (pool : list jsstring) : bool :=
  forallb (fun token => match objectPrototypeGet token with
                        | None => true
                        | Some _ => false
                        end) pool.

(* ===================================================================== *)
(** * Part II: theorems                                                    *)
(* ===================================================================== *)

Unset Implicit Arguments.

(** ** The threshold classifier *)

(** No score is above 0.3 and below -0.3 at once: the first test of the
    classifier never hides a score the second one would accept. *)
Lemma thresholds_exclusive (s : float) :
  (0.3 <? s)%float = true -> (s <? -0.3)%float = false.
Proof.
  rewrite !ltb_spec.
  replace (Prim2SF 0.3) with (S754_finite false 5404319552844595 (-54))
    by (vm_compute; reflexivity).
  replace (Prim2SF (-0.3)) with (S754_finite true 5404319552844595 (-54))
    by (vm_compute; reflexivity).
  unfold SFltb, SFcompare.
  destruct (Prim2SF s) as [sign | sign | | sign m e];
    try destruct sign; intros H; try discriminate H; reflexivity.
Qed.

Lemma label_texts_distinct :
  js "Positive" <> js "Negative" /\ js "Positive" <> js "Neutral"
  /\ js "Negative" <> js "Neutral".
Proof. repeat split; vm_compute; discriminate. Qed.

Lemma increments_distinct (acc : Distribution) :
  incrementPositive acc <> incrementNegative acc
  /\ incrementPositive acc <> incrementNeutral acc
  /\ incrementNegative acc <> incrementNeutral acc.
Proof.
  unfold incrementPositive, incrementNegative, incrementNeutral.
  repeat split; intros H; injection H; intros; lia.
Qed.

(** Closes the cases of a two-test classifier once both tests are decided:
    the goal holds by computation, or a hypothesis equates two distinct
    results. *)
Ltac settle_cases :=
  first
    [ reflexivity
    | match goal with H : _ /\ _ |- _ => destruct H; discriminate end
    | match goal with H : true = false |- _ => discriminate H end
    | match goal with H : false = true |- _ => discriminate H end
    | exfalso; auto; fail
    | match goal with H : _ = _ |- _ => symmetry in H; exfalso; auto; fail end ].

(** C2. The label shown under the overall score and the bucket a sentiment
    is counted in follow one rule, for every number: positive exactly when
    the score is above 0.3, negative exactly when it is below -0.3, neutral
    otherwise. The two thresholds themselves are neutral, and a score outside
    [-1, 1] (infinities and NaN included) goes through the same tests. *)
Theorem classifier_thresholds :
  (forall s : float,
     (overallLabel s = js "Positive" <-> (0.3 <? s)%float = true)
     /\ (overallLabel s = js "Negative" <-> (s <? -0.3)%float = true)
     /\ (overallLabel s = js "Neutral"
         <-> (0.3 <? s)%float = false /\ (s <? -0.3)%float = false))
  /\ (forall acc curr,
     (countSentiment acc curr = incrementPositive acc
      <-> (0.3 <? score curr)%float = true)
     /\ (countSentiment acc curr = incrementNegative acc
         <-> (score curr <? -0.3)%float = true)
     /\ (countSentiment acc curr = incrementNeutral acc
         <-> (0.3 <? score curr)%float = false
             /\ (score curr <? -0.3)%float = false))
  /\ (overallLabel 0.3 = js "Neutral" /\ overallLabel (-0.3) = js "Neutral")
  /\ (forall acc c,
     countSentiment acc {| score := 0.3; confidence := c |}
       = incrementNeutral acc
     /\ countSentiment acc {| score := -0.3; confidence := c |}
       = incrementNeutral acc)
  /\ (overallLabel 1.5 = js "Positive" /\ overallLabel (-1.5) = js "Negative"
      /\ overallLabel infinity = js "Positive"
      /\ overallLabel neg_infinity = js "Negative"
      /\ overallLabel nan = js "Neutral").
Proof.
  destruct label_texts_distinct as (PN & PU & NU).
  split; [| split; [| split; [| split]]].
  - intros s. unfold overallLabel.
    pose proof (thresholds_exclusive s) as X.
    destruct (0.3 <? s)%float eqn:Hp; destruct (s <? -0.3)%float eqn:Hn;
      try (specialize (X eq_refl); discriminate X);
      repeat split; intros; settle_cases.
  - intros acc curr. unfold countSentiment.
    destruct (increments_distinct acc) as (D1 & D2 & D3).
    pose proof (thresholds_exclusive (score curr)) as X.
    destruct (0.3 <? score curr)%float eqn:Hp;
      destruct (score curr <? -0.3)%float eqn:Hn;
      try (specialize (X eq_refl); discriminate X);
      repeat split; intros; settle_cases.
  - split; reflexivity.
  - intros acc c. split; reflexivity.
  - repeat split; reflexivity.
Qed.

(** ** The overall score *)

Lemma reduce_scores (sentiments : list SentimentResult) (init : float) :
  fold_left (fun acc curr => acc + score curr)%float sentiments init
  = fold_left PrimFloat.add (map score sentiments) init.
Proof.
  revert init.
  induction sentiments as [| s rest IH]; intros init; simpl.
  - reflexivity.
  - apply IH.
Qed.

Lemma lengthNumber_map (A B : Type) (f : A -> B) (l : list A) :
  lengthNumber (map f l) = lengthNumber l.
Proof. unfold lengthNumber. now rewrite length_map. Qed.

(** C3. The overall score is the mean of the scores (their sum in binary64
    arithmetic, taken in order, over their number). Nothing guards the empty
    list: the quotient 0/0 is NaN, which is neither zero nor an error, and
    the aggregation itself completes with that NaN. For the single sentiment
    of score 0.5 (confidence 0.9) the overall score is 0.5. *)
Theorem overallScore_mean :
  (forall sentiments, overallScore sentiments = mean (map score sentiments))
  /\ overallScore [] = nan
  /\ is_nan (overallScore []) = true
  /\ (overallScore [] =? 0)%float = false
  /\ (forall toLowerCase (Date : Type) (newDate : jsstring -> Date)
        formatDistance (clock : nat -> Date) fetchedPosts,
      exists data,
        aggregate toLowerCase newDate formatDistance clock fetchedPosts []
          = Normal data
        /\ SentimentData.overallScore data = nan)
  /\ overallScore [ {| score := 0.5; confidence := Some 0.9%float |} ]
     = 0.5%float.
Proof.
  split; [| split; [| split; [| split; [| split]]]].
  - intros sentiments. unfold overallScore, mean.
    now rewrite reduce_scores, lengthNumber_map.
  - reflexivity.
  - reflexivity.
  - reflexivity.
  - intros. eexists. split; reflexivity.
  - reflexivity.
Qed.

(** ** The distribution *)

Lemma distribution_from (sentiments : list SentimentResult) :
  forall acc,
    let d := fold_left countSentiment sentiments acc in
    positive d
      = positive acc
        + List.length (filter (fun s => 0.3 <? score s)%float sentiments)
    /\ negative d
      = negative acc
        + List.length (filter (fun s => score s <? -0.3)%float sentiments)
    /\ neutral d
      = neutral acc
        + List.length
            (filter (fun s => negb (0.3 <? score s)%float
                              && negb (score s <? -0.3)%float) sentiments).
Proof.
  induction sentiments as [| s rest IH]; intros acc; simpl.
  - repeat split; lia.
  - specialize (IH (countSentiment acc s)). simpl in IH.
    destruct IH as (Hp & Hn & Hu). rewrite Hp, Hn, Hu.
    unfold countSentiment.
    pose proof (thresholds_exclusive (score s)) as X.
    destruct (0.3 <? score s)%float eqn:Ep.
    + rewrite (X eq_refl). simpl. repeat split; lia.
    + destruct (score s <? -0.3)%float eqn:En; simpl; repeat split; lia.
Qed.

(** C4. The three counters of the distribution add up to the number of
    sentiments: each counter is the number of sentiments passing its test
    (above 0.3, below -0.3, neither), and every sentiment passes exactly
    one of the three. *)
Theorem distribution_partition :
  forall sentiments,
    let d := distribution sentiments in
    positive d + neutral d + negative d = List.length sentiments
    /\ positive d
       = List.length (filter (fun s => 0.3 <? score s)%float sentiments)
    /\ negative d
       = List.length (filter (fun s => score s <? -0.3)%float sentiments)
    /\ neutral d
       = List.length
           (filter (fun s => negb (0.3 <? score s)%float
                             && negb (score s <? -0.3)%float) sentiments)
    /\ (forall s,
          (if (0.3 <? score s)%float then 1 else 0)
          + (if (score s <? -0.3)%float then 1 else 0)
          + (if negb (0.3 <? score s)%float && negb (score s <? -0.3)%float
             then 1 else 0) = 1).
Proof.
  intros sentiments d.
  destruct (distribution_from sentiments
              {| positive := 0; neutral := 0; negative := 0 |})
    as (Hp & Hn & Hu).
  fold (distribution sentiments) in Hp, Hn, Hu. fold d in Hp, Hn, Hu.
  simpl in Hp, Hn, Hu.
  assert (Hone : forall s,
          (if (0.3 <? score s)%float then 1 else 0)
          + (if (score s <? -0.3)%float then 1 else 0)
          + (if negb (0.3 <? score s)%float && negb (score s <? -0.3)%float
             then 1 else 0) = 1).
  { intros s. pose proof (thresholds_exclusive (score s)) as X.
    destruct (0.3 <? score s)%float.
    - now rewrite (X eq_refl).
    - now destruct (score s <? -0.3)%float. }
  repeat split; try assumption.
  rewrite Hp, Hn, Hu. clear - Hone.
  induction sentiments as [| s rest IH]; simpl; [reflexivity |].
  specialize (Hone s).
  destruct (0.3 <? score s)%float; destruct (score s <? -0.3)%float;
    simpl in *; lia.
Qed.

(** ** The confidence list *)

Lemma confidenceScores_nth (sentiments : list SentimentResult) (i : nat) :
  nth_error (confidenceScores sentiments) i
  = option_map confidenceOrOne (nth_error sentiments i).
Proof. unfold confidenceScores. apply nth_error_map. Qed.

(** Where the claim on the confidence list holds: a missing confidence
    becomes 1, and a confidence that is a non-zero number is kept. *)
Lemma confidenceOrOne_cases (s : SentimentResult) :
  (confidence s = None -> confidenceOrOne s = 1%float)
  /\ (forall c, confidence s = Some c -> numberToBoolean c = true ->
        confidenceOrOne s = c).
Proof.
  unfold confidenceOrOne. split.
  - now intros ->.
  - now intros c -> ->.
Qed.

(** C5. Evaluation at the failing input: a confidence that is present with
    value 0 is not kept. [s.confidence || 1] takes 0 for a missing value,
    and the confidence list holds 1 at that index; the same happens to -0
    and NaN. *)
Theorem confidence_zero_replaced :
  let s := {| score := 0.5; confidence := Some 0%float |} in
  confidenceScores [s] = [1%float]
  /\ nth_error (confidenceScores [s]) 0 <> confidence s
  /\ confidenceScores [ {| score := 0.5; confidence := Some (-0)%float |} ]
     = [1%float]
  /\ confidenceScores [ {| score := 0.5; confidence := Some nan |} ]
     = [1%float].
Proof.
  cbv zeta. repeat split; try reflexivity.
  intros H.
  apply (f_equal (fun o => match o with
                           | Some v => is_zero v
                           | None => false
                           end)) in H.
  vm_compute in H. discriminate H.
Qed.

(** ** Strings, membership and property lookup *)

Lemma strictEquals_eq (a b : jsstring) : strictEquals a b = true <-> a = b.
Proof.
  revert b. induction a as [| x a IH]; intros [| y b]; simpl;
    try (split; [discriminate | discriminate]); [tauto |].
  rewrite andb_true_iff, N.eqb_eq, IH.
  split; [intros [-> ->]; reflexivity | intros H; injection H; auto].
Qed.

Lemma strictEquals_refl (a : jsstring) : strictEquals a a = true.
Proof. now apply strictEquals_eq. Qed.

Lemma strictEquals_neq (a b : jsstring) : strictEquals a b = false <-> a <> b.
Proof.
  rewrite <- strictEquals_eq. destruct (strictEquals a b); split; intros;
    try discriminate; try reflexivity; exfalso; auto.
Qed.

Lemma strictEquals_sym (a b : jsstring) : strictEquals a b = strictEquals b a.
Proof.
  destruct (strictEquals b a) eqn:E.
  - apply strictEquals_eq. symmetry. now apply strictEquals_eq.
  - apply strictEquals_neq. intros ->. now rewrite strictEquals_refl in E.
Qed.

Lemma has_In (members : list jsstring) (w : jsstring) :
  has members w = true <-> In w members.
Proof.
  unfold has. rewrite existsb_exists. split.
  - intros (k & Hk & E). apply strictEquals_eq in E. now subst.
  - intros H. exists w. split; [assumption | apply strictEquals_refl].
Qed.

Lemma has_false (members : list jsstring) (w : jsstring) :
  has members w = false <-> ~ In w members.
Proof.
  rewrite <- has_In. destruct (has members w); split; intros;
    try discriminate; try reflexivity; exfalso; auto.
Qed.

Section KeyedObjects.

Variable A : Type.
Variable f : jsstring -> A.

Lemma lookup_keyed (ks : list jsstring) (w : jsstring) :
  lookup w (map (fun k => (k, f k)) ks)
  = if has ks w then Some (f w) else None.
Proof.
  induction ks as [| k ks IH]; simpl; [reflexivity |].
  destruct (strictEquals w k) eqn:E; simpl.
  - apply strictEquals_eq in E. now subst.
  - exact IH.
Qed.

End KeyedObjects.

Lemma assign_keyed (f : jsstring -> value) (ks : list jsstring)
  (w : jsstring) (v : value) :
  NoDup ks ->
  assign (map (fun k => (k, f k)) ks) w v
  = if has ks w
    then map (fun k => (k, if strictEquals k w then v else f k)) ks
    else map (fun k => (k, f k)) ks ++ [(w, v)].
Proof.
  induction ks as [| k ks IH]; intros ND; simpl; [reflexivity |].
  inversion ND as [| ? ? Hk ND']; subst.
  destruct (strictEquals w k) eqn:E; simpl.
  - apply strictEquals_eq in E. subst k. rewrite strictEquals_refl.
    f_equal. apply map_ext_in. intros k Hin.
    destruct (strictEquals k w) eqn:E'; [| reflexivity].
    apply strictEquals_eq in E'. subst. contradiction.
  - rewrite (IH ND'). rewrite strictEquals_sym, E.
    now destruct (has ks w).
Qed.

(** ** Counting the pool *)

Lemma firstOccurrences_In (w : jsstring) (pool : list jsstring) :
  In w (firstOccurrences pool) <-> In w pool.
Proof.
  induction pool as [| a pool IH]; simpl; [tauto |].
  rewrite filter_In, IH, negb_true_iff, strictEquals_neq.
  destruct (strictEquals w a) eqn:E.
  - apply strictEquals_eq in E. subst. tauto.
  - apply strictEquals_neq in E. split; [tauto |].
    intros [-> | H]; [now left | right; split; assumption].
Qed.

Lemma firstOccurrences_NoDup (pool : list jsstring) :
  NoDup (firstOccurrences pool).
Proof.
  induction pool as [| a pool IH]; simpl; constructor.
  - rewrite filter_In, strictEquals_refl. simpl. intros [_ H]. discriminate.
  - now apply NoDup_filter.
Qed.

Lemma firstOccurrences_snoc (pool : list jsstring) (w : jsstring) :
  firstOccurrences (pool ++ [w])
  = if has pool w then firstOccurrences pool
    else firstOccurrences pool ++ [w].
Proof.
  induction pool as [| a pool IH]; simpl; [reflexivity |].
  rewrite IH. destruct (strictEquals w a) eqn:E; simpl.
  - destruct (has pool w); [reflexivity |].
    rewrite filter_app. simpl. rewrite E. simpl. now rewrite app_nil_r.
  - destruct (has pool w); [reflexivity |].
    rewrite filter_app. simpl. now rewrite E.
Qed.

Lemma occurrences_snoc (k w : jsstring) (pool : list jsstring) :
  occurrences k (pool ++ [w])
  = (occurrences k pool + if strictEquals k w then 1 else 0)%N.
Proof.
  unfold occurrences. rewrite filter_app, length_app. simpl.
  destruct (strictEquals k w); simpl; lia.
Qed.

Lemma occurrences_absent (w : jsstring) (pool : list jsstring) :
  has pool w = false -> occurrences w pool = 0%N.
Proof.
  intros H. unfold occurrences.
  replace (filter (strictEquals w) pool) with (@nil jsstring);
    [reflexivity |].
  symmetry. induction pool as [| a pool IH]; simpl; [reflexivity |].
  simpl in H. apply orb_false_iff in H as [E H]. rewrite E. now apply IH.
Qed.

Lemma occurrences_present (w : jsstring) (pool : list jsstring) :
  has pool w = true -> occurrences w pool <> 0%N.
Proof.
  intros H. unfold occurrences.
  induction pool as [| a pool IH]; simpl in *; [discriminate |].
  destruct (strictEquals w a); simpl in *; [lia | now apply IH].
Qed.

Lemma has_firstOccurrences (pool : list jsstring) (w : jsstring) :
  has (firstOccurrences pool) w = has pool w.
Proof.
  destruct (has pool w) eqn:E.
  - apply has_In, firstOccurrences_In, has_In, E.
  - apply has_false. rewrite firstOccurrences_In. now apply has_false.
Qed.

Lemma inheritsNothing_app (l1 l2 : list jsstring) :
  inheritsNothing (l1 ++ l2) = inheritsNothing l1 && inheritsNothing l2.
Proof. apply forallb_app. Qed.

(** A token that inherits nothing is not [__proto__], and reads
    [undefined] from an object that does not own it. *)
Lemma inherits_nothing_word (w : jsstring) :
  inheritsNothing [w] = true ->
  strictEquals w (js "__proto__") = false /\ objectPrototypeGet w = None.
Proof.
  unfold inheritsNothing. simpl. rewrite andb_true_r.
  unfold objectPrototypeGet.
  destruct (strictEquals w (js "__proto__")); [discriminate |].
  destruct (lookup w objectPrototypeMethods); [discriminate |].
  now split.
Qed.

(** One step of the reducer on an object that holds the counts so far. *)
Lemma countWord_tally (pool : list jsstring) (w : jsstring) :
  inheritsNothing [w] = true ->
  countWord (map numbered (tally pool)) w
  = map numbered (tally (pool ++ [w])).
Proof.
  intros Hw. destruct (inherits_nothing_word w Hw) as (Hproto & Hget).
  unfold countWord, setProperty, getProperty. rewrite Hproto.
  unfold tally, numbered. rewrite !map_map. simpl.
  rewrite (lookup_keyed _ (fun k => VNumber (occurrences k pool))),
    has_firstOccurrences.
  rewrite (assign_keyed (fun k => VNumber (occurrences k pool)))
    by apply firstOccurrences_NoDup.
  rewrite has_firstOccurrences, firstOccurrences_snoc.
  destruct (has pool w) eqn:Hin.
  - simpl. pose proof (occurrences_present w pool Hin) as Hpos.
    destruct (occurrences w pool =? 0)%N eqn:Z;
      [apply N.eqb_eq in Z; contradiction |].
    simpl. apply map_ext. intros k. rewrite occurrences_snoc.
    destruct (strictEquals k w) eqn:E.
    + apply strictEquals_eq in E. now subst.
    + now rewrite N.add_0_r.
  - rewrite Hget. simpl. rewrite map_app. simpl. f_equal.
    + apply map_ext_in. intros k Hk. rewrite occurrences_snoc.
      destruct (strictEquals k w) eqn:E; [| now rewrite N.add_0_r].
      apply strictEquals_eq in E. subst k.
      apply (proj1 (firstOccurrences_In w pool)) in Hk.
      apply (proj2 (has_In pool w)) in Hk.
      rewrite Hk in Hin. discriminate Hin.
    + rewrite occurrences_snoc, strictEquals_refl,
        (occurrences_absent w pool Hin). reflexivity.
Qed.

(** The counter holds the tally of the pool, as numbers, when no token
    names a property of [Object.prototype]. *)
Lemma wordCounts_tally (pool : list jsstring) :
  inheritsNothing pool = true ->
  wordCounts pool = map numbered (tally pool).
Proof.
  unfold wordCounts.
  induction pool as [| w pool IH] using rev_ind; intros H; [reflexivity |].
  rewrite inheritsNothing_app in H. apply andb_true_iff in H as [Hp Hw].
  rewrite fold_left_app. simpl. rewrite (IH Hp).
  now apply countWord_tally.
Qed.

(** ** The sort *)

Section SortFacts.

Variable A : Type.
Variable comparefn : A -> A -> comparatorResult.

Lemma insertSorted_perm (x : A) (l : list A) :
  Permutation (insertSorted comparefn x l) (x :: l).
Proof.
  induction l as [| y l IH]; simpl; [apply Permutation_refl |].
  destruct (sortsAfter comparefn x y); [| apply Permutation_refl].
  apply Permutation_trans with (y :: x :: l).
  - now apply perm_skip.
  - apply perm_swap.
Qed.

Lemma sort_perm (l : list A) : Permutation (sort comparefn l) l.
Proof.
  induction l as [| x l IH]; simpl; [apply perm_nil |].
  apply Permutation_trans with (x :: sort comparefn l).
  - apply insertSorted_perm.
  - now apply perm_skip.
Qed.

Lemma sort_length (l : list A) :
  List.length (sort comparefn l) = List.length l.
Proof. apply Permutation_length, sort_perm. Qed.

(** The comparator is the difference of a key. *)
Variable key : A -> Z.
Hypothesis comparefn_key :
  forall a b, comparefn a b = Some (key a - key b)%Z.

Lemma sortsAfter_key (x y : A) :
  sortsAfter comparefn x y = (key y <? key x)%Z.
Proof.
  unfold sortsAfter. rewrite comparefn_key.
  destruct (key y <? key x)%Z eqn:E.
  - apply Z.ltb_lt in E. apply Z.ltb_lt. lia.
  - apply Z.ltb_ge in E. apply Z.ltb_ge. lia.
Qed.

Let ascending (a b : A) : Prop := (key a <= key b)%Z.

Lemma insertSorted_sorted (x : A) (l : list A) :
  StronglySorted ascending l ->
  StronglySorted ascending (insertSorted comparefn x l).
Proof.
  induction 1 as [| y l Hl IH Hy]; simpl.
  - repeat constructor.
  - rewrite sortsAfter_key. destruct (key y <? key x)%Z eqn:E.
    + apply Z.ltb_lt in E. constructor; [exact IH |].
      apply Permutation_Forall with (x :: l).
      * apply Permutation_sym, insertSorted_perm.
      * constructor; [unfold ascending; lia | exact Hy].
    + apply Z.ltb_ge in E. constructor.
      * now constructor.
      * constructor; [exact E |].
        eapply Forall_impl; [| exact Hy].
        unfold ascending. intros b Hb. lia.
Qed.

Lemma sort_sorted (l : list A) : StronglySorted ascending (sort comparefn l).
Proof.
  induction l as [| x l IH]; simpl; [constructor |].
  now apply insertSorted_sorted.
Qed.

(** Stability: the elements of one key keep their order. *)
Lemma insertSorted_stable (z : Z) (x : A) (l : list A) :
  filter (fun a => key a =? z)%Z (insertSorted comparefn x l)
  = filter (fun a => key a =? z)%Z (x :: l).
Proof.
  induction l as [| y l IH]; [reflexivity |].
  cbn [insertSorted]. rewrite sortsAfter_key.
  destruct (key y <? key x)%Z eqn:E; [| reflexivity].
  apply Z.ltb_lt in E. cbn [filter] in *. rewrite IH.
  destruct (key x =? z)%Z eqn:Ex; destruct (key y =? z)%Z eqn:Ey;
    try reflexivity.
  apply Z.eqb_eq in Ex, Ey. lia.
Qed.

Lemma sort_stable (z : Z) (l : list A) :
  filter (fun a => key a =? z)%Z (sort comparefn l)
  = filter (fun a => key a =? z)%Z l.
Proof.
  induction l as [| x l IH]; [reflexivity |].
  cbn [sort fold_right]. fold (sort comparefn l).
  rewrite insertSorted_stable. cbn [filter]. now rewrite IH.
Qed.

End SortFacts.

(** Sorting commutes with a map that the comparators agree on. *)
Lemma sort_map {A B : Type} (f : A -> B)
  (cmpA : A -> A -> comparatorResult) (cmpB : B -> B -> comparatorResult) :
  (forall a b, cmpB (f a) (f b) = cmpA a b) ->
  forall l, sort cmpB (map f l) = map f (sort cmpA l).
Proof.
  intros H.
  assert (Hins : forall x l,
            insertSorted cmpB (f x) (map f l) = map f (insertSorted cmpA x l)).
  { intros x l. induction l as [| y l IH]; simpl; [reflexivity |].
    unfold sortsAfter. rewrite H. fold (sortsAfter cmpA x y).
    destruct (sortsAfter cmpA x y); simpl; [now rewrite IH | reflexivity]. }
  induction l as [| x l IH]; simpl; [reflexivity |].
  fold (sort cmpB (map f l)). fold (sort cmpA l). now rewrite IH, Hins.
Qed.

Lemma filter_map_fst {A B : Type} (f : jsstring * A -> jsstring * B)
  (p : jsstring -> bool) :
  (forall e, fst (f e) = fst e) ->
  forall l, filter (fun e => p (fst e)) (map f l)
            = map f (filter (fun e => p (fst e)) l).
Proof.
  intros H l. induction l as [| e l IH]; simpl; [reflexivity |].
  rewrite H, IH. now destruct (p (fst e)).
Qed.

(** [Object.entries] looks at the keys only. *)
Lemma entries_map {A B : Type} (f : jsstring * A -> jsstring * B) :
  (forall e, fst (f e) = fst e) ->
  forall o, entries (map f o) = map f (entries o).
Proof.
  intros H o. unfold entries.
  rewrite (filter_map_fst f isArrayIndex H).
  rewrite (filter_map_fst f (fun k => negb (isArrayIndex k)) H).
  rewrite map_app. f_equal.
  apply sort_map. intros a b. unfold byIndex. now rewrite !H.
Qed.

Lemma filter_both_perm {A : Type} (p : A -> bool) (l : list A) :
  Permutation (filter p l ++ filter (fun a => negb (p a)) l) l.
Proof.
  induction l as [| a l IH]; simpl; [apply perm_nil |].
  destruct (p a); simpl.
  - now apply perm_skip.
  - apply Permutation_sym, Permutation_cons_app, Permutation_sym, IH.
Qed.

Lemma entries_perm {A : Type} (o : list (jsstring * A)) :
  Permutation (entries o) o.
Proof.
  unfold entries.
  apply Permutation_trans with
    (filter (fun e => isArrayIndex (fst e)) o
     ++ filter (fun e => negb (isArrayIndex (fst e))) o).
  - apply Permutation_app_tail, sort_perm.
  - apply (filter_both_perm (fun e : jsstring * A => isArrayIndex (fst e))).
Qed.

(** ** The keyword extractor on pools that inherit nothing *)

Section KeywordFacts.

Variable toLowerCase : jsstring -> jsstring.

(** The filter of the source keeps what steps 3 and 4 keep. *)
Lemma words_pooledTokens (texts : list jsstring) :
  words toLowerCase texts = pooledTokens toLowerCase texts.
Proof.
  unfold words, pooledTokens. apply flat_map_ext. intros text.
  induction (split (toLowerCase text)) as [| t l IH]; [reflexivity |].
  cbn [filter]. rewrite IH. unfold keep, Nat.ltb.
  destruct (3 <=? List.length t); cbn [filter];
    destruct (has stopWords t); reflexivity.
Qed.

(** The result is the first ten entries of the ranking of the pool. *)
Lemma extractTopKeywords_ranking (texts : list jsstring) :
  inheritsNothing (words toLowerCase texts) = true ->
  extractTopKeywords toLowerCase texts
  = map (fun e => {| keyword := fst e; count := VNumber (snd e) |})
      (firstn 10 (ranking (words toLowerCase texts))).
Proof.
  intros H. unfold extractTopKeywords, ranking.
  rewrite (wordCounts_tally _ H).
  rewrite (entries_map numbered) by reflexivity.
  rewrite (sort_map numbered byOccurrences byCountDescending)
    by reflexivity.
  now rewrite firstn_map, map_map.
Qed.

End KeywordFacts.

(** ** Order of occurrence in a list *)

Section Precedes.

Variable A : Type.

Lemma precedes_cons (x a b : A) (l : list A) :
  precedes a b l -> precedes a b (x :: l).
Proof.
  intros (l1 & l2 & l3 & ->). now exists (x :: l1), l2, l3.
Qed.

Lemma precedes_head (a b : A) (l : list A) :
  In b l -> precedes a b (a :: l).
Proof.
  intros H. apply in_split in H as (u & v & ->). now exists [], u, v.
Qed.

Lemma precedes_cons_inv (x a b : A) (l : list A) :
  precedes a b (x :: l) -> (x = a /\ In b l) \/ precedes a b l.
Proof.
  intros (l1 & l2 & l3 & E). destruct l1 as [| y l1]; simpl in E.
  - injection E as -> ->. left. split; [reflexivity |].
    apply in_or_app. right. now left.
  - injection E as -> ->. right. now exists l1, l2, l3.
Qed.

Lemma precedes_In (a b : A) (l : list A) :
  precedes a b l -> In a l /\ In b l.
Proof.
  intros (l1 & l2 & l3 & ->). split.
  - apply in_elt.
  - apply in_or_app. right. right. apply in_elt.
Qed.

Lemma precedes_app_l (a b : A) (l l' : list A) :
  precedes a b l -> precedes a b (l ++ l').
Proof.
  intros (l1 & l2 & l3 & ->). exists l1, l2, (l3 ++ l').
  now rewrite <- !app_assoc, <- !app_comm_cons, <- app_assoc.
Qed.

Lemma precedes_app_inv (a b : A) (l l' : list A) :
  precedes a b (l ++ l') ->
  precedes a b l \/ precedes a b l' \/ (In a l /\ In b l').
Proof.
  induction l as [| x l IH]; simpl; intros H; [now right; left |].
  apply precedes_cons_inv in H as [[-> Hb] | H].
  - apply in_app_or in Hb as [Hb | Hb].
    + left. now apply precedes_head.
    + right. right. split; [now left | assumption].
  - destruct (IH H) as [H1 | [H2 | [Ha Hb]]].
    + left. now apply precedes_cons.
    + right. now left.
    + right. right. split; [now right | assumption].
Qed.

Lemma precedes_firstn_inv (n : nat) (a b : A) (l : list A) :
  precedes a b (firstn n l) -> precedes a b l.
Proof.
  intros H. rewrite <- (firstn_skipn n l). now apply precedes_app_l.
Qed.

Variable p : A -> bool.

Lemma precedes_filter (a b : A) (l : list A) :
  p a = true -> p b = true ->
  precedes a b l -> precedes a b (filter p l).
Proof.
  intros Ha Hb (l1 & l2 & l3 & ->).
  exists (filter p l1), (filter p l2), (filter p l3).
  rewrite filter_app. simpl. rewrite Ha, filter_app. simpl. now rewrite Hb.
Qed.

Lemma precedes_filter_inv (a b : A) (l : list A) :
  precedes a b (filter p l) -> precedes a b l.
Proof.
  induction l as [| x l IH]; simpl; intros H.
  - destruct H as (l1 & l2 & l3 & E). now destruct l1.
  - destruct (p x).
    + apply precedes_cons_inv in H as [[-> Hb] | H].
      * apply precedes_head. now apply filter_In in Hb.
      * now apply precedes_cons, IH.
    + now apply precedes_cons, IH.
Qed.

Lemma precedes_sorted (R : A -> A -> Prop) (a b : A) (l : list A) :
  StronglySorted R l -> precedes a b l -> R a b.
Proof.
  induction 1 as [| x l Hl IH Hx]; intros H.
  - destruct H as (l1 & l2 & l3 & E). now destruct l1.
  - apply precedes_cons_inv in H as [[-> Hb] | H]; [| now apply IH].
    rewrite Forall_forall in Hx. now apply Hx.
Qed.

End Precedes.

Lemma precedes_map {A B : Type} (f : A -> B) (a b : A) (l : list A) :
  precedes a b l -> precedes (f a) (f b) (map f l).
Proof.
  intros (l1 & l2 & l3 & ->). exists (map f l1), (map f l2), (map f l3).
  now rewrite map_app, map_cons, map_app, map_cons.
Qed.

Lemma precedes_map_inv {A B : Type} (f : A -> B) (x y : B) (l : list A) :
  precedes x y (map f l) ->
  exists a b, f a = x /\ f b = y /\ precedes a b l.
Proof.
  induction l as [| e l IH]; simpl; intros H.
  - destruct H as (l1 & l2 & l3 & E). now destruct l1.
  - apply precedes_cons_inv in H as [[Hx Hy] | H].
    + apply in_map_iff in Hy as (b & Hb & Hin).
      exists e, b. repeat split; try assumption. now apply precedes_head.
    + destruct (IH H) as (a & b & Ha & Hb & Hp).
      exists a, b. repeat split; try assumption. now apply precedes_cons.
Qed.

Lemma precedes_NoDup {A B : Type} (f : A -> B) (a b : A) (l : list A) :
  NoDup (map f l) -> precedes a b l -> f a <> f b.
Proof.
  intros ND (l1 & l2 & l3 & ->) E.
  rewrite map_app, map_cons in ND. apply NoDup_remove_2 in ND.
  apply ND, in_or_app. right. rewrite E. apply in_map, in_elt.
Qed.

Lemma StronglySorted_weaken {A : Type} (R R' : A -> A -> Prop) (l : list A) :
  (forall a b, R a b -> R' a b) ->
  StronglySorted R l -> StronglySorted R' l.
Proof.
  intros H. induction 1 as [| x l Hl IH Hx]; constructor; [exact IH |].
  eapply Forall_impl; [| exact Hx]. intros b. apply H.
Qed.

(** ** Array indices *)

Lemma decimalValue_snoc (s : jsstring) (c : N) :
  decimalValue (s ++ [c]) = (10 * decimalValue s + (c - 48))%N.
Proof. unfold decimalValue. now rewrite fold_left_app. Qed.

Lemma decimal_from_ge (s : jsstring) (acc : N) :
  (acc <= fold_left (fun a c => 10 * a + (c - 48)) s acc)%N.
Proof.
  revert acc. induction s as [| c s IH]; intros acc; cbn [fold_left]; [lia |].
  specialize (IH (10 * acc + (c - 48))%N). lia.
Qed.

Lemma decimalValue_positive (s : jsstring) :
  forallb isDigit s = true -> noLeadingZero s -> s <> [] ->
  (0 < decimalValue s)%N.
Proof.
  destruct s as [| c s]; [congruence |]. simpl. intros D L _.
  apply andb_true_iff in D as [Dc _]. unfold isDigit in Dc.
  apply andb_true_iff in Dc as [Lo Hi]. apply N.leb_le in Lo, Hi.
  unfold decimalValue. cbn [fold_left].
  pose proof (decimal_from_ge s (10 * 0 + (c - 48))%N). lia.
Qed.

Lemma noLeadingZero_prefix (s : jsstring) (c : N) :
  noLeadingZero (s ++ [c]) -> noLeadingZero s.
Proof. now destruct s. Qed.

Lemma decimalValue_injective (s t : jsstring) :
  forallb isDigit s = true -> forallb isDigit t = true ->
  noLeadingZero s -> noLeadingZero t ->
  decimalValue s = decimalValue t -> s = t.
Proof.
  revert t. induction s as [| c s IH] using rev_ind; intros t Ds Dt Ls Lt E.
  - destruct t as [| d t]; [reflexivity |].
    pose proof (decimalValue_positive (d :: t) Dt Lt) as P.
    assert (d :: t <> []) as Hne by discriminate.
    specialize (P Hne). change (decimalValue []) with 0%N in E. lia.
  - destruct t as [| d t _] using rev_ind.
    + pose proof (decimalValue_positive (s ++ [c]) Ds Ls) as P.
      assert (s ++ [c] <> []) as Hne by (now destruct s).
      specialize (P Hne). change (decimalValue []) with 0%N in E. lia.
    + rewrite !decimalValue_snoc in E.
      rewrite forallb_app in Ds, Dt.
      apply andb_true_iff in Ds as [Ds Dc], Dt as [Dt Dd].
      simpl in Dc, Dd. rewrite andb_true_r in Dc, Dd.
      unfold isDigit in Dc, Dd.
      apply andb_true_iff in Dc as [Lc Hc], Dd as [Ld Hd].
      apply N.leb_le in Lc, Hc, Ld, Hd.
      assert (c = d) by lia. subst d.
      assert (decimalValue s = decimalValue t) as E' by lia.
      f_equal. apply IH; try assumption.
      * now apply noLeadingZero_prefix with c.
      * now apply noLeadingZero_prefix with c.
Qed.

(** Distinct array indices have distinct values. *)
Lemma arrayIndex_injective (k1 k2 : jsstring) (i : N) :
  arrayIndex k1 = Some i -> arrayIndex k2 = Some i -> k1 = k2.
Proof.
  assert (shape : forall k j, arrayIndex k = Some j ->
            j = decimalValue k /\ forallb isDigit k = true
            /\ (k = [48%N] \/ noLeadingZero k) /\ k <> []).
  { intros k j. unfold arrayIndex. destruct k as [| c rest]; [discriminate |].
    destruct (forallb isDigit (c :: rest)) eqn:D; [| discriminate].
    destruct (negb (c =? 48)%N
              || match rest with [] => true | _ :: _ => false end) eqn:L;
      [| discriminate].
    destruct (decimalValue (c :: rest) <=? 4294967294)%N; [| discriminate].
    simpl. intros H. injection H as <-.
    repeat split; try reflexivity; try discriminate.
    apply orb_true_iff in L as [L | L].
    - right. simpl. apply negb_true_iff, N.eqb_neq in L. exact L.
    - destruct rest; [| discriminate].
      destruct (N.eq_dec c 48) as [-> | Hc]; [now left | now right]. }
  intros H1 H2.
  destruct (shape _ _ H1) as (V1 & D1 & [Z1 | L1] & N1).
  - destruct (shape _ _ H2) as (V2 & D2 & [Z2 | L2] & N2); [congruence |].
    pose proof (decimalValue_positive k2 D2 L2 N2) as P.
    subst k1. rewrite <- V2, V1 in P. vm_compute in P. discriminate P.
  - destruct (shape _ _ H2) as (V2 & D2 & [Z2 | L2] & N2).
    + pose proof (decimalValue_positive k1 D1 L1 N1) as P.
      subst k2. rewrite <- V1, V2 in P. vm_compute in P. discriminate P.
    + apply decimalValue_injective; congruence.
Qed.

(** ** The ranking *)

Lemma byOccurrences_key (a b : jsstring * N) :
  byOccurrences a b = Some (- Z.of_N (snd a) - - Z.of_N (snd b))%Z.
Proof. unfold byOccurrences. f_equal. lia. Qed.

Lemma ranking_perm (pool : list jsstring) :
  Permutation (ranking pool) (tally pool).
Proof.
  unfold ranking.
  apply Permutation_trans with (entries (tally pool)).
  - apply sort_perm.
  - apply entries_perm.
Qed.

Lemma ranking_sorted (pool : list jsstring) :
  StronglySorted (fun a b => (snd b <= snd a)%N) (ranking pool).
Proof.
  unfold ranking.
  apply StronglySorted_weaken with
    (R := fun a b : jsstring * N => (- Z.of_N (snd a) <= - Z.of_N (snd b))%Z).
  - intros a b H. lia.
  - apply (sort_sorted _ byOccurrences (fun a => (- Z.of_N (snd a))%Z)
             byOccurrences_key).
Qed.

Lemma ranking_stable (c : N) (pool : list jsstring) :
  filter (fun e => (snd e =? c)%N) (ranking pool)
  = filter (fun e => (snd e =? c)%N) (entries (tally pool)).
Proof.
  unfold ranking.
  pose proof (sort_stable _ byOccurrences (fun a => (- Z.of_N (snd a))%Z)
                byOccurrences_key (- Z.of_N c)%Z (entries (tally pool))) as H.
  assert (E : forall l : list (jsstring * N),
            filter (fun a => (- Z.of_N (snd a) =? - Z.of_N c)%Z) l
            = filter (fun e => (snd e =? c)%N) l).
  { intros l. apply filter_ext. intros a.
    destruct (snd a =? c)%N eqn:Ea.
    - apply N.eqb_eq in Ea. apply Z.eqb_eq. lia.
    - apply N.eqb_neq in Ea. apply Z.eqb_neq. lia. }
  now rewrite !E in H.
Qed.

Lemma tally_keys (pool : list jsstring) :
  map fst (tally pool) = firstOccurrences pool.
Proof. unfold tally. rewrite map_map. simpl. apply map_id. Qed.

Section KeywordRanking.

Variable toLowerCase : jsstring -> jsstring.

(** The result never has more than ten entries, whatever the texts. *)
Lemma extractTopKeywords_length (texts : list jsstring) :
  List.length (extractTopKeywords toLowerCase texts) <= 10.
Proof.
  unfold extractTopKeywords. rewrite length_map. apply firstn_le_length.
Qed.

(** Where the description of the extractor holds: on texts none of whose
    tokens names a property of [Object.prototype], the result is the
    first ten entries of a list that holds every distinct token of the
    pool once, with its number of occurrences, by falling count. *)
Lemma extractTopKeywords_refines_spec (texts : list jsstring) :
  let pool := pooledTokens toLowerCase texts in
  inheritsNothing pool = true ->
  exists ranked,
    Permutation ranked (tally pool)
    /\ StronglySorted (fun a b => (snd b <= snd a)%N) ranked
    /\ extractTopKeywords toLowerCase texts
       = map (fun e => {| keyword := fst e; count := VNumber (snd e) |})
           (firstn 10 ranked).
Proof.
  intros pool H. unfold pool in *. rewrite <- words_pooledTokens in *.
  exists (ranking (words toLowerCase texts)). split; [| split].
  - apply ranking_perm.
  - apply ranking_sorted.
  - now apply extractTopKeywords_ranking.
Qed.

(** On such texts the counts are numbers that never increase. *)
Lemma extractTopKeywords_descending (texts : list jsstring) :
  inheritsNothing (words toLowerCase texts) = true ->
  descendingByCount (extractTopKeywords toLowerCase texts).
Proof.
  intros H. rewrite (extractTopKeywords_ranking _ _ H).
  exists (map snd (firstn 10 (ranking (words toLowerCase texts)))). split.
  - now rewrite !map_map.
  - pose proof (ranking_sorted (words toLowerCase texts)) as S.
    rewrite <- (firstn_skipn 10 (ranking (words toLowerCase texts))) in S.
    revert S. generalize (firstn 10 (ranking (words toLowerCase texts))).
    intros l. induction l as [| e l IH]; simpl; intros S; [constructor |].
    apply StronglySorted_inv in S as [S Hd]. constructor; [now apply IH |].
    rewrite Forall_forall in *. intros n Hn.
    apply in_map_iff in Hn as (e' & <- & He').
    apply Hd, in_or_app. now left.
Qed.

End KeywordRanking.

(** ** Claims on the keyword extractor *)

(** The example of the specification: the pool of the two texts and the
    ranking, which starts with the keyword [cat] counted twice. *)
Lemma extractTopKeywords_example :
  pooledTokens toLowerCaseAscii [js "the cat sat"; js "cat runs fast"]
  = [js "cat"; js "sat"; js "cat"; js "runs"; js "fast"]
  /\ extractTopKeywords toLowerCaseAscii [js "the cat sat"; js "cat runs fast"]
     = [ {| keyword := js "cat"; count := VNumber 2 |};
         {| keyword := js "sat"; count := VNumber 1 |};
         {| keyword := js "runs"; count := VNumber 1 |};
         {| keyword := js "fast"; count := VNumber 1 |} ].
Proof. split; reflexivity. Qed.

(** C1. Evaluation at the failing inputs. The counter is an object literal,
    so a token naming a property of [Object.prototype] is not counted: for
    the text [constructor] the token occurs once in the pool and the entry
    returned holds the source text of the function [Object] followed by [1],
    not the number 1; the token [__proto__] occurs twice in the pool of the
    second text and is missing from the result. *)
Theorem extractTopKeywords_inherited_property :
  pooledTokens toLowerCaseAscii [js "constructor"] = [js "constructor"]
  /\ occurrences (js "constructor")
       (pooledTokens toLowerCaseAscii [js "constructor"]) = 1%N
  /\ extractTopKeywords toLowerCaseAscii [js "constructor"]
     = [ {| keyword := js "constructor";
            count := VString (js "function Object() { [native code] }1") |} ]
  /\ occurrences (js "__proto__")
       (pooledTokens toLowerCaseAscii [js "__proto__ cat __proto__"]) = 2%N
  /\ extractTopKeywords toLowerCaseAscii [js "__proto__ cat __proto__"]
     = [ {| keyword := js "cat"; count := VNumber 1 |} ].
Proof. repeat split; reflexivity. Qed.

(** C6. Evaluation at the failing input. For the text
    [aaa constructor bbb bbb] the count of [constructor] is a string, the
    comparator yields NaN against it, and the result lists the count 1
    before the count 2. No reordering of the result is in falling order of
    count either, as one of the counts is not a number. The bound of ten
    entries holds here as everywhere. *)
Theorem extractTopKeywords_not_descending :
  let result :=
    extractTopKeywords toLowerCaseAscii [js "aaa constructor bbb bbb"] in
  map keyword result = [js "aaa"; js "constructor"; js "bbb"]
  /\ map count result
     = [ VNumber 1; VString (js "function Object() { [native code] }1");
         VNumber 2 ]
  /\ ~ descendingByCount result
  /\ (forall l, Permutation l result -> ~ descendingByCount l)
  /\ List.length result <= 10.
Proof.
  cbv zeta.
  assert (P : forall l,
            Permutation l
              (extractTopKeywords toLowerCaseAscii
                 [js "aaa constructor bbb bbb"]) ->
            ~ descendingByCount l).
  { intros l Hl (counts & Hc & _).
    assert (In (VString (js "function Object() { [native code] }1"))
              (map count l)) as Hin.
    { apply in_map_iff.
      exists {| keyword := js "constructor";
                count := VString (js "function Object() { [native code] }1") |}.
      split; [reflexivity |].
      apply Permutation_in with (1 := Permutation_sym Hl).
      vm_compute. right. left. reflexivity. }
    rewrite Hc in Hin. apply in_map_iff in Hin as (n & Hn & _).
    discriminate Hn. }
  repeat split; try reflexivity.
  - apply P, Permutation_refl.
  - exact P.
  - apply extractTopKeywords_length.
Qed.

Lemma words_nil (toLowerCase : jsstring -> jsstring) (texts : list jsstring) :
  (forall text token,
      In text texts -> In token (split (toLowerCase text)) ->
      has stopWords token = true \/ List.length token <= 2) ->
  words toLowerCase texts = [].
Proof.
  intros H. unfold words. induction texts as [| text texts IH]; simpl;
    [reflexivity |].
  rewrite IH by (intros t k Ht; apply H; now right).
  rewrite app_nil_r.
  assert (Hall : forall token, In token (split (toLowerCase text)) ->
                               keep token = false).
  { intros token Hin. unfold keep.
    destruct (H text token (or_introl eq_refl) Hin) as [S | L].
    - now rewrite S.
    - apply andb_false_iff. right. apply Nat.ltb_ge. exact L. }
  induction (split (toLowerCase text)) as [| t l IHl]; [reflexivity |].
  cbn [filter]. rewrite (Hall t) by now left.
  apply IHl. intros token Hin. apply Hall. now right.
Qed.

(** C7. The extractor returns a list on every input (it is a total
    function of the texts). On no text at all the list is empty, and it is
    empty whenever every token of every text is a stop word or has at most
    two code units: so for the empty string, for strings of white space, for
    stop words only, and for [a an to]. *)
Theorem extractTopKeywords_empty :
  (forall toLowerCase, extractTopKeywords toLowerCase [] = [])
  /\ (forall toLowerCase texts,
        (forall text token,
            In text texts -> In token (split (toLowerCase text)) ->
            has stopWords token = true \/ List.length token <= 2) ->
        extractTopKeywords toLowerCase texts = [])
  /\ extractTopKeywords toLowerCaseAscii [js "a an to"] = []
  /\ extractTopKeywords toLowerCaseAscii [js ""] = []
  /\ extractTopKeywords toLowerCaseAscii
       [js ""; js "   "; js "The be to of and a in THAT have"] = [].
Proof.
  split; [| split; [| repeat split; reflexivity]].
  - reflexivity.
  - intros toLowerCase texts H. unfold extractTopKeywords.
    now rewrite (words_nil toLowerCase texts H).
Qed.

(** The general case of C7 at the texts [a an to] and the empty string. *)
Lemma extractTopKeywords_empty_witness :
  extractTopKeywords toLowerCaseAscii [js "a an to"; js ""] = [].
Proof.
  apply (proj1 (proj2 extractTopKeywords_empty)).
  intros text token [<- | [<- | []]] Hin; vm_compute in Hin.
  - destruct Hin as [<- | [<- | [<- | []]]];
      [right | right | left]; vm_compute; try reflexivity; lia.
  - destruct Hin as [<- | []]. right. vm_compute. lia.
Defined.

(** ** Ties in the ranking *)

Lemma isArrayIndex_indexOf (k : jsstring) :
  isArrayIndex k = true -> arrayIndex k = Some (indexOf k).
Proof.
  unfold isArrayIndex, indexOf. now destruct (arrayIndex k).
Qed.

(** Entries of equal count stand in the ranking as in [Object.entries]. *)
Lemma ranking_ties (pool : list jsstring) (a b : jsstring * N) :
  precedes a b (ranking pool) -> snd a = snd b ->
  precedes a b (entries (tally pool)).
Proof.
  intros H E.
  apply (precedes_filter_inv _ (fun e => (snd e =? snd a)%N)).
  rewrite <- ranking_stable.
  apply precedes_filter; [apply N.eqb_refl | | exact H].
  rewrite E. apply N.eqb_refl.
Qed.

(** Among the entries of the counter, array indices come first, by rising
    value, and the other keys follow in the order of first occurrence. *)
Lemma entries_order (pool : list jsstring) (a b : jsstring * N) :
  precedes a b (entries (tally pool)) ->
  (isArrayIndex (fst a) = true /\ isArrayIndex (fst b) = true
   /\ (indexOf (fst a) < indexOf (fst b))%N)
  \/ (isArrayIndex (fst a) = false /\ isArrayIndex (fst b) = false
      /\ precedes (fst a) (fst b) (firstOccurrences pool))
  \/ (isArrayIndex (fst a) = true /\ isArrayIndex (fst b) = false).
Proof.
  intros H.
  pose proof (precedes_NoDup fst a b (entries (tally pool))) as Hne.
  assert (NoDup (map fst (entries (tally pool)))) as ND.
  { apply Permutation_NoDup with (map fst (tally pool)).
    - apply Permutation_map, Permutation_sym, entries_perm.
    - rewrite tally_keys. apply firstOccurrences_NoDup. }
  specialize (Hne ND H).
  assert (Hidx : forall e,
            In e (sort (@byIndex N)
                    (filter (fun e => isArrayIndex (fst e)) (tally pool))) ->
            isArrayIndex (fst e) = true).
  { intros e He. apply Permutation_in with (1 := sort_perm _ _ _) in He.
    now apply filter_In in He. }
  assert (Hother : forall e,
            In e (filter (fun e => negb (isArrayIndex (fst e))) (tally pool)) ->
            isArrayIndex (fst e) = false).
  { intros e He. apply filter_In in He as [_ He].
    now apply negb_true_iff in He. }
  unfold entries in H. apply precedes_app_inv in H as [H | [H | [Ha Hb]]].
  - left. destruct (precedes_In _ _ _ _ H) as [Ha Hb].
    pose proof (Hidx a Ha) as Ia. pose proof (Hidx b Hb) as Ib.
    repeat split; try assumption.
    assert (Z.of_N (indexOf (fst a)) <= Z.of_N (indexOf (fst b)))%Z as Hle.
    { apply (precedes_sorted _
               (fun x y : jsstring * N =>
                  (Z.of_N (indexOf (fst x)) <= Z.of_N (indexOf (fst y)))%Z)
               a b) with (2 := H).
      apply (sort_sorted _ (@byIndex N)
               (fun x => Z.of_N (indexOf (fst x)))).
      reflexivity. }
    assert (indexOf (fst a) <> indexOf (fst b)) as Hd.
    { intros E. apply Hne.
      apply arrayIndex_injective with (indexOf (fst a)).
      - now apply isArrayIndex_indexOf.
      - rewrite E. now apply isArrayIndex_indexOf. }
    lia.
  - right. left. destruct (precedes_In _ _ _ _ H) as [Ha Hb].
    repeat split; [now apply Hother | now apply Hother |].
    rewrite <- tally_keys. apply precedes_map.
    now apply precedes_filter_inv in H.
  - right. right. split; [now apply Hidx | now apply Hother].
Qed.

(** C10 as stated fails: in the text [abc 123] both tokens occur once and
    [abc] occurs first, yet [123] is returned first. *)
Lemma ties_not_in_first_occurrence_order :
  ~ tiesInFirstOccurrenceOrder
      (words toLowerCaseAscii [js "abc 123"])
      (extractTopKeywords toLowerCaseAscii [js "abc 123"]).
Proof.
  intros H.
  specialize (H {| keyword := js "123"; count := VNumber 1 |}
                {| keyword := js "abc"; count := VNumber 1 |}).
  assert (precedes (js "123") (js "abc")
            (firstOccurrences (words toLowerCaseAscii [js "abc 123"]))) as P.
  { apply H; [| reflexivity]. now exists [], [], []. }
  change (firstOccurrences (words toLowerCaseAscii [js "abc 123"]))
    with [js "abc"; js "123"] in P.
  apply precedes_cons_inv in P as [[E _] | P]; [vm_compute in E; discriminate E |].
  apply precedes_cons_inv in P as [[_ []] | P].
  destruct P as (l1 & l2 & l3 & E). now destruct l1.
Qed.

(** C10, amended. On texts none of whose tokens names a property of
    [Object.prototype], two keywords of equal count are returned in the
    order in which the counter lists its properties: keywords that are
    array indices first, by rising numeric value, then the other keywords
    in the order of their first occurrence in the pool. So a keyword that
    is no array index is followed, among its ties, only by such keywords,
    in first-occurrence order, and a keyword that is an array index is
    preceded, among its ties, only by smaller array indices. *)
Theorem ties_in_property_order :
  forall toLowerCase texts,
    inheritsNothing (words toLowerCase texts) = true ->
    forall a b,
      precedes a b (extractTopKeywords toLowerCase texts) ->
      count a = count b ->
      (isArrayIndex (keyword a) = false ->
       isArrayIndex (keyword b) = false
       /\ precedes (keyword a) (keyword b)
            (firstOccurrences (words toLowerCase texts)))
      /\ (isArrayIndex (keyword b) = true ->
          isArrayIndex (keyword a) = true
          /\ (indexOf (keyword a) < indexOf (keyword b))%N).
Proof.
  intros toLowerCase texts Hpool a b Hab Hcount.
  rewrite (extractTopKeywords_ranking _ _ Hpool) in Hab.
  apply precedes_map_inv in Hab as (ea & eb & <- & <- & Hab).
  cbn [keyword count] in *. injection Hcount as Hcount.
  apply precedes_firstn_inv in Hab.
  apply ranking_ties in Hab; [| exact Hcount].
  apply entries_order in Hab
    as [(Ia & Ib & Hlt) | [(Ia & Ib & Hp) | (Ia & Ib)]];
    split; intros X; try (rewrite X in *; discriminate); now split.
Qed.

(** The amended C10 at the text [abc 123 100]: the array indices [100] and
    [123] are tied and returned by rising value. *)
Lemma ties_in_property_order_witness :
  isArrayIndex (js "100") = true
  /\ (indexOf (js "100") < indexOf (js "123"))%N.
Proof.
  apply (proj2 (ties_in_property_order toLowerCaseAscii [js "abc 123 100"]
                  eq_refl
                  {| keyword := js "100"; count := VNumber 1 |}
                  {| keyword := js "123"; count := VNumber 1 |}
                  (ex_intro _ []
                     (ex_intro _ []
                        (ex_intro _ [ {| keyword := js "abc";
                                         count := VNumber 1 |} ] eq_refl)))
                  eq_refl)).
  reflexivity.
Defined.

(** ** What the counter stores *)

Lemma lookup_In {A : Type} (k : jsstring) (o : list (jsstring * A)) (v : A) :
  lookup k o = Some v -> In (k, v) o.
Proof.
  induction o as [| [k' v'] o IH]; simpl; [discriminate |].
  destruct (strictEquals k k') eqn:E.
  - apply strictEquals_eq in E. subst k'. intros H. injection H as ->.
    now left.
  - intros H. right. now apply IH.
Qed.

Lemma assign_stored (o : object) (k : jsstring) (v : value) :
  stored v -> Forall (fun e => stored (snd e)) o ->
  Forall (fun e => stored (snd e)) (assign o k v).
Proof.
  intros Hv. induction 1 as [| [k' v'] o He Ho IH]; simpl.
  - now repeat constructor.
  - destruct (strictEquals k k'); constructor; assumption.
Qed.

Lemma plusOne_stored (acc : object) (w : jsstring) :
  strictEquals w (js "__proto__") = false ->
  Forall (fun e => stored (snd e)) acc ->
  stored (plusOne (orZero (getProperty acc w))).
Proof.
  intros Hw Hacc. unfold getProperty.
  destruct (lookup w acc) as [v |] eqn:L.
  - apply lookup_In in L. rewrite Forall_forall in Hacc.
    specialize (Hacc _ L). simpl in Hacc. unfold orZero.
    destruct (toBoolean v); [| exact I].
    destruct v as [n | s | name |]; simpl in *; try contradiction.
    + exact I.
    + destruct Hacc as (name & rest & ->). exists name, (rest ++ js "1").
      now rewrite app_assoc.
  - unfold objectPrototypeGet. rewrite Hw.
    destruct (lookup w objectPrototypeMethods) as [name |]; simpl.
    + now exists name, (js "1").
    + exact I.
Qed.

(** Every value in the counter is a number or a string that starts with
    the source text of a built-in function: such a string is no numeric
    literal, and the comparator of the sort yields NaN on it. *)
Lemma wordCounts_stored (pool : list jsstring) :
  Forall (fun e => stored (snd e)) (wordCounts pool).
Proof.
  unfold wordCounts.
  assert (G : forall acc,
            Forall (fun e => stored (snd e)) acc ->
            Forall (fun e => stored (snd e)) (fold_left countWord pool acc)).
  { induction pool as [| w pool IH]; intros acc Hacc; simpl; [exact Hacc |].
    apply IH. unfold countWord, setProperty.
    destruct (strictEquals w (js "__proto__")) eqn:Hw; [exact Hacc |].
    apply assign_stored; [| exact Hacc].
    now apply plusOne_stored. }
  apply G. constructor.
Qed.

(** ** The aggregation and the wall clock *)

Section AggregateFacts.

Variable toLowerCase : jsstring -> jsstring.
Variable Date : Type.
Variable newDate : jsstring -> Date.
Variable formatDistance : Date -> Date -> Completion jsstring.

(** The series only depends on the readings it takes: one for each
    sentiment, at the index of the sentiment. *)
Lemma sentimentOverTimeFrom_readings (clock clock' : nat -> Date)
  (fetchedPosts : list Post) (sentiments : list SentimentResult) :
  forall i,
    (forall k, i <= k < i + List.length sentiments -> clock k = clock' k) ->
    sentimentOverTimeFrom newDate formatDistance clock fetchedPosts i
      sentiments
    = sentimentOverTimeFrom newDate formatDistance clock' fetchedPosts i
        sentiments.
Proof.
  induction sentiments as [| s rest IH]; intros i H; simpl; [reflexivity |].
  destruct (nth_error fetchedPosts i) as [post |]; [| reflexivity].
  rewrite <- (H i) by (simpl; lia).
  rewrite (IH (S i)) by (intros k Hk; apply H; simpl; lia).
  reflexivity.
Qed.

(** When the series is built, its [j]-th point pairs the label of the
    [j]-th post at the [j]-th reading with the [j]-th score. *)
Lemma sentimentOverTimeFrom_points (clock : nat -> Date)
  (fetchedPosts : list Post) (sentiments : list SentimentResult) :
  forall i points,
    sentimentOverTimeFrom newDate formatDistance clock fetchedPosts i
      sentiments = Normal points ->
    map Point.y points = map score sentiments
    /\ forall j s,
        nth_error sentiments j = Some s ->
        exists post label,
          nth_error fetchedPosts (i + j) = Some post
          /\ formatDistance (newDate (created_at post)) (clock (i + j))
             = Normal label
          /\ nth_error points j
             = Some {| Point.x := label; Point.y := score s |}.
Proof.
  induction sentiments as [| s rest IH]; intros i points; simpl.
  - intros H. injection H as <-. split; [reflexivity |].
    intros [| j] s' Hj; discriminate Hj.
  - destruct (nth_error fetchedPosts i) as [post |] eqn:Hpost;
      [| discriminate].
    destruct (formatDistance (newDate (created_at post)) (clock i))
      as [label | e] eqn:Hlabel; simpl; [| discriminate].
    destruct (sentimentOverTimeFrom newDate formatDistance clock
                fetchedPosts (S i) rest) as [pts | e] eqn:Hrest; simpl;
      [| discriminate].
    intros H. injection H as <-.
    destruct (IH (S i) pts Hrest) as [Hy Hpts]. split.
    + simpl. now rewrite Hy.
    + intros [| j] s' Hj; simpl in Hj.
      * injection Hj as <-. exists post, label.
        rewrite Nat.add_0_r. now repeat split.
      * destruct (Hpts j s' Hj) as (p & l & Hp & Hl & Hn).
        exists p, l. rewrite <- plus_n_Sm. now repeat split.
Qed.

(** If the second of two posts gets another label at a later reading,
    the aggregate differs from the one of a clock that stands still. *)
Lemma aggregate_depends_on_later_reading (clock clock' : nat -> Date)
  (p q : Post) (s t : SentimentResult) (l0 l1 l1' : jsstring) :
  formatDistance (newDate (created_at p)) (clock 0) = Normal l0 ->
  clock' 0 = clock 0 ->
  formatDistance (newDate (created_at q)) (clock 1) = Normal l1 ->
  formatDistance (newDate (created_at q)) (clock' 1) = Normal l1' ->
  l1 <> l1' ->
  aggregate toLowerCase newDate formatDistance clock [p; q] [s; t]
  <> aggregate toLowerCase newDate formatDistance clock' [p; q] [s; t].
Proof.
  intros H0 E0 H1 H1' Hne.
  unfold aggregate, sentimentOverTime. simpl.
  rewrite E0, H0, H1, H1'. simpl. intros E. injection E as E.
  now apply Hne.
Qed.

End AggregateFacts.

(** C8 as stated fails: the aggregation takes no instant as a parameter, it
    reads the clock once for every sentiment. Two runs on the same posts
    and sentiments that start at the same instant differ when the clock
    moves on between the first reading and the second. *)
Lemma aggregate_reads_the_clock :
  steadyClock 0 = movingClock 0
  /\ aggregate toLowerCaseAscii sampleNewDate sampleFormatDistance
       steadyClock samplePosts sampleSentiments
     <> aggregate toLowerCaseAscii sampleNewDate sampleFormatDistance
          movingClock samplePosts sampleSentiments.
Proof.
  split; [reflexivity |].
  apply aggregate_depends_on_later_reading
    with (l0 := js "less than a minute ago")
         (l1 := js "less than a minute ago") (l1' := js "1 minute ago");
    try reflexivity.
  vm_compute. discriminate.
Qed.

(** C8, amended. The aggregate is a function of the posts, the sentiments
    and the readings of the clock taken while it is built, one for each
    sentiment: two runs that see the same readings give the same result.
    The overall score, the distribution, the confidence list, the keywords
    and the values of the series do not depend on the clock at all, and the
    label of the [j]-th point is that of the [j]-th post at the [j]-th
    reading. *)
Theorem aggregate_determined_by_readings :
  forall toLowerCase (Date : Type) (newDate : jsstring -> Date)
         formatDistance (clock clock' : nat -> Date) fetchedPosts sentiments,
    (forall k, k < List.length sentiments -> clock k = clock' k) ->
    aggregate toLowerCase newDate formatDistance clock fetchedPosts sentiments
    = aggregate toLowerCase newDate formatDistance clock' fetchedPosts
        sentiments
    /\ forall data,
        aggregate toLowerCase newDate formatDistance clock fetchedPosts
          sentiments = Normal data ->
        SentimentData.overallScore data = overallScore sentiments
        /\ SentimentData.sentimentDistribution data = distribution sentiments
        /\ SentimentData.confidenceScores data = confidenceScores sentiments
        /\ SentimentData.topKeywords data
           = extractTopKeywords toLowerCase (map text fetchedPosts)
        /\ map Point.y (SentimentData.sentimentOverTime data)
           = map score sentiments
        /\ forall j s,
            nth_error sentiments j = Some s ->
            exists post label,
              nth_error fetchedPosts j = Some post
              /\ formatDistance (newDate (created_at post)) (clock j)
                 = Normal label
              /\ nth_error (SentimentData.sentimentOverTime data) j
                 = Some {| Point.x := label; Point.y := score s |}.
Proof.
  intros toLowerCase Date newDate formatDistance clock clock' fetchedPosts
    sentiments H.
  split.
  - unfold aggregate, sentimentOverTime.
    rewrite (sentimentOverTimeFrom_readings _ newDate formatDistance
               clock clock' fetchedPosts sentiments 0); [reflexivity |].
    intros k Hk. apply H. lia.
  - intros data. unfold aggregate, sentimentOverTime.
    destruct (sentimentOverTimeFrom newDate formatDistance clock fetchedPosts
                0 sentiments) as [points | e] eqn:Hpoints; simpl;
      [| discriminate].
    intros E. injection E as <-. simpl.
    destruct (sentimentOverTimeFrom_points _ newDate formatDistance clock
                fetchedPosts sentiments 0 points Hpoints) as [Hy Hp].
    repeat split; try reflexivity; assumption.
Qed.

(** The amended C8 at the sample posts with one sentiment: the two clocks
    agree on the only reading taken. *)
Lemma aggregate_determined_by_readings_witness :
  aggregate toLowerCaseAscii sampleNewDate sampleFormatDistance steadyClock
    samplePosts [ {| score := 0.5; confidence := Some 0.9%float |} ]
  = aggregate toLowerCaseAscii sampleNewDate sampleFormatDistance movingClock
      samplePosts [ {| score := 0.5; confidence := Some 0.9%float |} ].
Proof.
  apply (aggregate_determined_by_readings toLowerCaseAscii Z sampleNewDate
           sampleFormatDistance steadyClock movingClock samplePosts
           [ {| score := 0.5; confidence := Some 0.9%float |} ]).
  intros k Hk. simpl in Hk. destruct k as [| k]; [reflexivity | lia].
Defined.

(** ** The join of the scorer calls *)

Lemma mapFrom_In {A B : Type} (f : nat -> A -> B) (l : list A) :
  forall i y,
    In y (mapFrom f i l)
    <-> exists j v, nth_error l j = Some v /\ y = f (i + j) v.
Proof.
  induction l as [| v l IH]; intros i y; simpl.
  - split; [intros [] | intros ([| j] & w & H & _); discriminate H].
  - rewrite IH. split.
    + intros [<- | (j & w & Hj & ->)].
      * exists 0, v. now rewrite Nat.add_0_r.
      * exists (S j), w. now rewrite <- plus_n_Sm.
    + intros ([| j] & w & Hj & ->); simpl in Hj.
      * injection Hj as ->. left. now rewrite Nat.add_0_r.
      * right. exists j, w. now rewrite <- plus_n_Sm.
Qed.

(** The rejection retained is one of the candidates and no candidate
    settles before it. *)
Lemma firstRejection_earliest {A : Type} (settled : list (nat * Completion A)) :
  forall best,
    (best <> None \/ exists t e, In (t, Throw e) settled) ->
    exists t e,
      firstRejection best settled = Some (t, e)
      /\ (best = Some (t, e) \/ In (t, Throw e) settled)
      /\ (forall t' e', In (t', Throw e') settled -> t <= t')
      /\ (forall t0 e0, best = Some (t0, e0) -> t <= t0).
Proof.
  induction settled as [| [t1 [a | e1]] rest IH]; intros best H.
  - destruct H as [H | (t & e & [])].
    destruct best as [[t e] |]; [| congruence].
    exists t, e. simpl. repeat split; auto.
    + intros t' e' [].
    + intros t0 e0 E. injection E as -> ->. lia.
  - assert (best <> None \/ exists t e, In (t, Throw e) rest) as H'.
    { destruct H as [H | (t & e & [E | Hin])]; [now left | discriminate E |].
      right. now exists t, e. }
    destruct (IH best H') as (t & e & Hf & Hin & Hmin & Hbest).
    exists t, e. simpl. repeat split; auto.
    + destruct Hin; [now left | right; now right].
    + intros t' e' [E | Hin']; [discriminate E | now apply Hmin with e'].
  - simpl. destruct best as [[t0 e0] |].
    + destruct (t1 <? t0) eqn:Hlt.
      * apply Nat.ltb_lt in Hlt.
        destruct (IH (Some (t1, e1))) as (t & e & Hf & Hin & Hmin & Hbest);
          [left; discriminate |].
        exists t, e. specialize (Hbest t1 e1 eq_refl).
        repeat split; auto.
        -- right. destruct Hin as [E | Hin]; [left | now right].
           injection E as -> ->. reflexivity.
        -- intros t' e' [E | Hin'];
             [injection E as -> _; lia | now apply Hmin with e'].
        -- intros t2 e2 E. injection E as -> ->. lia.
      * apply Nat.ltb_ge in Hlt.
        destruct (IH (Some (t0, e0))) as (t & e & Hf & Hin & Hmin & Hbest);
          [left; discriminate |].
        exists t, e. specialize (Hbest t0 e0 eq_refl).
        repeat split; auto.
        -- destruct Hin as [E | Hin]; [now left | right; now right].
        -- intros t' e' [E | Hin'];
             [injection E as -> _; lia | now apply Hmin with e'].
        -- intros t2 e2 E. injection E as -> ->. lia.
    + destruct (IH (Some (t1, e1))) as (t & e & Hf & Hin & Hmin & Hbest);
        [left; discriminate |].
      exists t, e. specialize (Hbest t1 e1 eq_refl).
      repeat split; auto.
      * right. destruct Hin as [E | Hin]; [left | now right].
        injection E as -> ->. reflexivity.
      * intros t' e' [E | Hin'];
          [injection E as -> _; lia | now apply Hmin with e'].
      * intros t2 e2 E. discriminate E.
Qed.

(** [Promise.all] rejects as soon as one input is rejected, with the reason
    of the earliest rejection. *)
Lemma promiseAll_rejects {A : Type} (settled : list (nat * Completion A)) :
  (exists t e, In (t, Throw e) settled) ->
  exists t e,
    promiseAll settled = Throw e
    /\ In (t, Throw e) settled
    /\ forall t' e', In (t', Throw e') settled -> t <= t'.
Proof.
  intros H.
  destruct (firstRejection_earliest settled None (or_intror H))
    as (t & e & Hf & Hin & Hmin & _).
  exists t, e. unfold promiseAll. rewrite Hf. repeat split.
  - destruct Hin as [E | Hin]; [discriminate E | exact Hin].
  - exact Hmin.
Qed.

(** ** The workflow when a scorer call fails *)

Section WorkflowFacts.

Variable toLowerCase : jsstring -> jsstring.
Variable Date : Type.
Variable newDate : jsstring -> Date.
Variable formatDistance : Date -> Date -> Completion jsstring.
Variable clock : nat -> Date.
Variable fetchTweets : jsstring -> Completion (list Post).
Variable analyzeSentiment : nat -> jsstring -> nat * Completion SentimentResult.

Let run : State -> State * list Toast :=
  handleAnalyze toLowerCase newDate formatDistance clock fetchTweets
    analyzeSentiment.

(** A blank query is refused and nothing changes. *)
Lemma handleAnalyze_blank_query (st : State) :
  trim (query st) = [] ->
  run st = (st, [ToastError (js "Please enter a search query")]).
Proof. intros H. unfold run, handleAnalyze. now rewrite H. Qed.

(** The fetch fails: its error is shown and only the flags are reset. *)
Lemma handleAnalyze_fetch_failure (st : State) (error : thrown) :
  trim (query st) <> [] ->
  fetchTweets (query st) = Throw error ->
  run st
  = ({| query := query st; posts := posts st; loading := false;
        analyzing := false; sentimentData := sentimentData st |},
     [ToastError (errorMessage error)]).
Proof.
  intros Hq Hf. unfold run, handleAnalyze.
  destruct (trim (query st)); [congruence |].
  unfold tryBody. simpl. now rewrite Hf.
Qed.

(** The join of the scorer calls is rejected: the posts are stored, the
    analysis state is not. *)
Lemma handleAnalyze_scorer_failure (st : State) (fetchedPosts : list Post)
  (error : thrown) :
  trim (query st) <> [] ->
  fetchTweets (query st) = Normal fetchedPosts ->
  scoreAll analyzeSentiment fetchedPosts = Throw error ->
  run st
  = ({| query := query st; posts := fetchedPosts; loading := false;
        analyzing := false; sentimentData := sentimentData st |},
     [ToastError (errorMessage error)]).
Proof.
  intros Hq Hf Hs. unfold run, handleAnalyze.
  destruct (trim (query st)); [congruence |].
  unfold tryBody. simpl. now rewrite Hf, Hs.
Qed.

(** Every call succeeds and the aggregate is built: it becomes the
    analysis state. *)
Lemma handleAnalyze_success (st : State) (fetchedPosts : list Post)
  (sentiments : list SentimentResult) (data : SentimentData.t) :
  trim (query st) <> [] ->
  fetchTweets (query st) = Normal fetchedPosts ->
  scoreAll analyzeSentiment fetchedPosts = Normal sentiments ->
  aggregate toLowerCase newDate formatDistance clock fetchedPosts sentiments
  = Normal data ->
  run st
  = ({| query := query st; posts := fetchedPosts; loading := false;
        analyzing := false; sentimentData := data |},
     [ToastSuccess (js "Analysis complete!")]).
Proof.
  intros Hq Hf Hs Ha. unfold run, handleAnalyze.
  destruct (trim (query st)); [congruence |].
  unfold tryBody. simpl. rewrite Hf, Hs. simpl. now rewrite Ha.
Qed.

End WorkflowFacts.

(** C9. The query is not blank, the posts are fetched, and the call of the
    scorer fails for at least one of them. Then the handler raises one
    toast, an error toast with the message of the failure that happened
    first; it does not call [setSentimentData], so the analysis state, the
    one the panel of results shows, is what it was before the request; the
    two busy flags are back to false. The fetched posts have been stored by
    then. *)
Theorem scorer_failure_keeps_analysis :
  forall toLowerCase (Date : Type) (newDate : jsstring -> Date)
         formatDistance (clock : nat -> Date) fetchTweets analyzeSentiment
         (st : State) (fetchedPosts : list Post),
    trim (query st) <> [] ->
    fetchTweets (query st) = Normal fetchedPosts ->
    (exists i post t e,
        nth_error fetchedPosts i = Some post
        /\ analyzeSentiment i (text post) = (t, Throw e)) ->
    exists i post t e,
      nth_error fetchedPosts i = Some post
      /\ analyzeSentiment i (text post) = (t, Throw e)
      /\ (forall j post' t' e',
             nth_error fetchedPosts j = Some post' ->
             analyzeSentiment j (text post') = (t', Throw e') -> t <= t')
      /\ let result :=
           handleAnalyze toLowerCase newDate formatDistance clock
             fetchTweets analyzeSentiment st in
         snd result = [ToastError (errorMessage e)]
         /\ sentimentData (fst result) = sentimentData st
         /\ (forall shown,
                displayed (fst result) = Some shown ->
                fst shown = sentimentData st)
         /\ loading (fst result) = false
         /\ analyzing (fst result) = false
         /\ posts (fst result) = fetchedPosts
         /\ query (fst result) = query st.
Proof.
  intros toLowerCase Date newDate formatDistance clock fetchTweets
    analyzeSentiment st fetchedPosts Hquery Hfetch (i0 & p0 & t0 & e0 & Hp0 & Hs0).
  destruct (promiseAll_rejects
              (mapFrom (fun i post => analyzeSentiment i (text post)) 0
                 fetchedPosts))
    as (t & e & Hall & Hin & Hmin).
  { exists t0, e0. apply mapFrom_In. exists i0, p0. now split. }
  apply mapFrom_In in Hin as (i & post & Hpost & Hsettled). simpl in Hsettled.
  exists i, post, t, e.
  split; [exact Hpost |]. split; [now symmetry |]. split.
  - intros j post' t' e' Hj Hs. apply Hmin with e'.
    apply mapFrom_In. exists j, post'. now split.
  - cbv zeta.
    rewrite (handleAnalyze_scorer_failure toLowerCase Date newDate
               formatDistance clock fetchTweets analyzeSentiment st
               fetchedPosts e Hquery Hfetch Hall).
    cbn [fst snd sentimentData loading analyzing posts query].
    repeat split; try reflexivity.
    intros shown. unfold displayed.
    destruct (showsResults _); [| discriminate].
    intros E. injection E as <-. reflexivity.
Qed.

(** C9 in the sample environment: the second scorer call fails at instant
    2, before the first one succeeds, and its message is the one shown. *)
Lemma scorer_failure_keeps_analysis_witness :
  exists i post t e,
    nth_error samplePosts i = Some post
    /\ sampleAnalyzeSentiment i (text post) = (t, Throw e)
    /\ (forall j post' t' e',
           nth_error samplePosts j = Some post' ->
           sampleAnalyzeSentiment j (text post') = (t', Throw e') -> t <= t')
    /\ let result :=
         handleAnalyze toLowerCaseAscii sampleNewDate sampleFormatDistance
           steadyClock sampleFetchTweets sampleAnalyzeSentiment sampleState in
       snd result = [ToastError (errorMessage e)]
       /\ sentimentData (fst result) = sentimentData sampleState
       /\ (forall shown,
              displayed (fst result) = Some shown ->
              fst shown = sentimentData sampleState)
       /\ loading (fst result) = false
       /\ analyzing (fst result) = false
       /\ posts (fst result) = samplePosts
       /\ query (fst result) = query sampleState.
Proof.
  apply (scorer_failure_keeps_analysis toLowerCaseAscii Z sampleNewDate
           sampleFormatDistance steadyClock sampleFetchTweets
           sampleAnalyzeSentiment sampleState samplePosts).
  - vm_compute. discriminate.
  - reflexivity.
  - exists 1, {| id := js "2"; text := js "fine weather";
                 created_at := js "0" |}, 2,
      (ErrorObject (js "quota exceeded")).
    split; reflexivity.
Defined.

(** After the failed request of the sample run the panel of results is
    rendered, as posts are stored: it shows the analysis state from before
    the request next to the posts just fetched. *)
Lemma failed_request_shows_previous_analysis :
  displayed sampleState = None
  /\ displayed
       (fst (handleAnalyze toLowerCaseAscii sampleNewDate sampleFormatDistance
               steadyClock sampleFetchTweets sampleAnalyzeSentiment
               sampleState))
     = Some (initialSentimentData, samplePosts).
Proof. split; reflexivity. Qed.

(* ===================================================================== *)
(** * Part III: further properties of the code                             *)
(* ===================================================================== *)

(** ** Splitting and trimming *)

Lemma splitFrom_concat (s : jsstring) :
  forall inSeparator cur,
    List.concat (splitFrom inSeparator cur s)
    = cur ++ filter (fun c => negb (isWhiteSpace c)) s.
Proof.
  induction s as [| c rest IH]; intros inSeparator cur; simpl.
  - now rewrite !app_nil_r.
  - destruct (isWhiteSpace c); simpl.
    + destruct inSeparator; simpl; rewrite IH; reflexivity.
    + rewrite IH, <- app_assoc. reflexivity.
Qed.

Lemma splitFrom_tokens (s : jsstring) :
  forall inSeparator cur,
    forallb (fun c => negb (isWhiteSpace c)) cur = true ->
    Forall (fun token => forallb (fun c => negb (isWhiteSpace c)) token = true)
      (splitFrom inSeparator cur s).
Proof.
  induction s as [| c rest IH]; intros inSeparator cur Hcur; simpl.
  - now repeat constructor.
  - destruct (isWhiteSpace c) eqn:Hc.
    + destruct inSeparator; [now apply IH |].
      constructor; [exact Hcur | now apply IH].
    + apply IH. rewrite forallb_app, Hcur. simpl. now rewrite Hc.
Qed.

Lemma splitFrom_single (s : jsstring) :
  forall cur,
    forallb (fun c => negb (isWhiteSpace c)) s = true ->
    splitFrom false cur s = [cur ++ s].
Proof.
  induction s as [| c rest IH]; intros cur H; simpl.
  - now rewrite app_nil_r.
  - simpl in H. apply andb_true_iff in H as [Hc Hrest].
    apply negb_true_iff in Hc. rewrite Hc, (IH _ Hrest), <- app_assoc.
    reflexivity.
Qed.

Lemma splitFrom_not_nil (s : jsstring) :
  forall inSeparator cur, splitFrom inSeparator cur s <> [].
Proof.
  induction s as [| c rest IH]; intros inSeparator cur; simpl;
    [discriminate |].
  destruct (isWhiteSpace c); [destruct inSeparator |];
    try apply IH; discriminate.
Qed.

(** [text.split(/\s+/)] always yields at least one piece; no piece holds a
    white-space code unit; the pieces put together are the text without
    its white space, in order; and a text without white space is its own
    single piece. *)
Theorem split_pieces :
  forall s,
    split s <> []
    /\ Forall (fun token =>
                 forallb (fun c => negb (isWhiteSpace c)) token = true)
         (split s)
    /\ List.concat (split s) = filter (fun c => negb (isWhiteSpace c)) s
    /\ (forallb (fun c => negb (isWhiteSpace c)) s = true -> split s = [s]).
Proof.
  intros s. unfold split. repeat split.
  - apply splitFrom_not_nil.
  - now apply splitFrom_tokens.
  - apply (splitFrom_concat s false []).
  - intros H. apply (splitFrom_single s [] H).
Qed.

Lemma trimStart_nil (s : jsstring) :
  trimStart s = [] <-> forallb isWhiteSpace s = true.
Proof.
  induction s as [| c rest IH]; simpl; [tauto |].
  destruct (isWhiteSpace c); simpl; [exact IH |].
  split; discriminate.
Qed.

Lemma trimStart_suffix (s : jsstring) :
  forallb isWhiteSpace (trimStart s) = true -> trimStart s = [].
Proof.
  induction s as [| c rest IH]; simpl; [reflexivity |].
  destruct (isWhiteSpace c) eqn:Hc; [exact IH |].
  simpl. rewrite Hc. discriminate.
Qed.

Lemma forallb_rev {A : Type} (p : A -> bool) (l : list A) :
  forallb p (rev l) = forallb p l.
Proof.
  induction l as [| a l IH]; simpl; [reflexivity |].
  rewrite forallb_app, IH. simpl. rewrite andb_true_r. apply andb_comm.
Qed.

(** [query.trim()] is empty exactly for a query of white space only. *)
Lemma trim_nil (s : jsstring) :
  trim s = [] <-> forallb isWhiteSpace s = true.
Proof.
  unfold trim. split.
  - intros H. apply (f_equal (@rev N)) in H. rewrite rev_involutive in H.
    simpl in H. apply trimStart_nil in H. rewrite forallb_rev in H.
    apply trimStart_suffix in H. now apply trimStart_nil.
  - intros H. apply trimStart_nil in H. rewrite H. reflexivity.
Qed.

(** A query that is empty or made of white space only is refused: the
    handler raises the validation toast and leaves the state as it is,
    whatever the fetcher, the scorer and the clock would have answered. *)
Theorem blank_query_refused :
  forall toLowerCase (Date : Type) (newDate : jsstring -> Date)
         formatDistance (clock : nat -> Date) fetchTweets analyzeSentiment
         (st : State),
    forallb isWhiteSpace (query st) = true ->
    handleAnalyze toLowerCase newDate formatDistance clock fetchTweets
      analyzeSentiment st
    = (st, [ToastError (js "Please enter a search query")]).
Proof.
  intros toLowerCase Date newDate formatDistance clock fetchTweets
    analyzeSentiment st H.
  apply trim_nil in H. unfold handleAnalyze. now rewrite H.
Qed.

(** The refusal at a query of three blanks, with a fetcher that would have
    found posts. *)
Lemma blank_query_refused_witness :
  let st := {| query := js "   "; posts := samplePosts; loading := false;
               analyzing := false; sentimentData := initialSentimentData |} in
  handleAnalyze toLowerCaseAscii sampleNewDate sampleFormatDistance
    steadyClock sampleFetchTweets sampleScorer st
  = (st, [ToastError (js "Please enter a search query")]).
Proof.
  apply (blank_query_refused toLowerCaseAscii Z sampleNewDate
           sampleFormatDistance steadyClock sampleFetchTweets sampleScorer).
  reflexivity.
Defined.

(** ** The keys of the counter, on every pool *)

Lemma assign_keys (o : object) (k : jsstring) (v : value) :
  map fst (assign o k v)
  = if has (map fst o) k then map fst o else map fst o ++ [k].
Proof.
  induction o as [| [k' v'] o IH]; simpl; [reflexivity |].
  destruct (strictEquals k k') eqn:E; simpl; [reflexivity |].
  rewrite IH. fold (has (map fst o) k). now destruct (has (map fst o) k).
Qed.

(** The counter owns one property for every distinct token other than
    [__proto__], in the order of first occurrences. *)
Lemma wordCounts_keys (pool : list jsstring) :
  map fst (wordCounts pool)
  = firstOccurrences
      (filter (fun w => negb (strictEquals w (js "__proto__"))) pool).
Proof.
  unfold wordCounts.
  induction pool as [| w pool IH] using rev_ind; [reflexivity |].
  rewrite fold_left_app, filter_app. cbn [fold_left filter].
  unfold countWord at 1, setProperty.
  destruct (strictEquals w (js "__proto__")); cbn [negb].
  - now rewrite app_nil_r.
  - rewrite assign_keys, IH, has_firstOccurrences, firstOccurrences_snoc.
    reflexivity.
Qed.

Lemma NoDup_firstn {A : Type} (n : nat) (l : list A) :
  NoDup l -> NoDup (firstn n l).
Proof.
  intros H. rewrite <- (firstn_skipn n l) in H.
  now apply NoDup_app_remove_r in H.
Qed.

Lemma ranked_keys_perm (pool : list jsstring) :
  Permutation
    (map fst (sort byCountDescending (entries (wordCounts pool))))
    (map fst (wordCounts pool)).
Proof.
  apply Permutation_map.
  apply Permutation_trans with (entries (wordCounts pool)).
  - apply sort_perm.
  - apply entries_perm.
Qed.

Lemma extractTopKeywords_keywords (toLowerCase : jsstring -> jsstring)
  (texts : list jsstring) :
  map keyword (extractTopKeywords toLowerCase texts)
  = firstn 10
      (map fst
         (sort byCountDescending
            (entries (wordCounts (words toLowerCase texts))))).
Proof.
  unfold extractTopKeywords. rewrite map_map. cbn [keyword].
  now rewrite firstn_map.
Qed.

Lemma words_In (toLowerCase : jsstring -> jsstring) (texts : list jsstring)
  (k : jsstring) :
  In k (words toLowerCase texts) <->
  exists text,
    In text texts /\ In k (split (toLowerCase text)) /\ keep k = true.
Proof.
  unfold words. rewrite in_flat_map. split.
  - intros (text & Ht & Hk). apply filter_In in Hk. now exists text.
  - intros (text & Ht & Hk & Hkeep). exists text. split; [exact Ht |].
    now apply filter_In.
Qed.

(** On every input the keywords returned are pairwise distinct, and each
    of them is a token of one of the lowercased texts: it holds no white
    space, has at least three code units, is no stop word, and is not
    [__proto__]. *)
Theorem keywords_are_distinct_tokens :
  forall toLowerCase texts,
    NoDup (map keyword (extractTopKeywords toLowerCase texts))
    /\ Forall
         (fun k =>
            (exists text, In text texts /\ In k (split (toLowerCase text)))
            /\ forallb (fun c => negb (isWhiteSpace c)) k = true
            /\ 3 <= List.length k
            /\ ~ In k stopWords
            /\ k <> js "__proto__")
         (map keyword (extractTopKeywords toLowerCase texts)).
Proof.
  intros toLowerCase texts. rewrite extractTopKeywords_keywords.
  pose proof (ranked_keys_perm (words toLowerCase texts)) as P.
  rewrite wordCounts_keys in P.
  split.
  - apply NoDup_firstn.
    apply Permutation_NoDup with (1 := Permutation_sym P).
    apply firstOccurrences_NoDup.
  - apply Forall_forall. intros k Hk.
    assert (In k (firstn 10
                    (map fst
                       (sort byCountDescending
                          (entries (wordCounts (words toLowerCase texts))))))
            -> In k (map fst
                       (sort byCountDescending
                          (entries (wordCounts (words toLowerCase texts))))))
      as Hsub.
    { intros H.
      rewrite <- (firstn_skipn 10
                    (map fst
                       (sort byCountDescending
                          (entries (wordCounts (words toLowerCase texts)))))).
      apply in_or_app. now left. }
    apply Hsub in Hk. apply Permutation_in with (1 := P) in Hk.
    apply firstOccurrences_In, filter_In in Hk as [Hpool Hproto].
    apply negb_true_iff, strictEquals_neq in Hproto.
    apply words_In in Hpool as (text & Ht & Hsplit & Hkeep).
    unfold keep in Hkeep. apply andb_true_iff in Hkeep as [Hstop Hlen].
    apply negb_true_iff, has_false in Hstop. apply Nat.ltb_lt in Hlen.
    repeat split; try assumption.
    + now exists text.
    + pose proof (splitFrom_tokens (toLowerCase text) false [] eq_refl)
        as Hall.
      rewrite Forall_forall in Hall. now apply Hall.
Qed.

(** On every input the result has as many entries as there are distinct
    tokens in the pool, [__proto__] left aside, and ten when there are
    more. *)
Theorem keywords_number :
  forall toLowerCase texts,
    List.length (extractTopKeywords toLowerCase texts)
    = Nat.min 10
        (List.length
           (firstOccurrences
              (filter (fun w => negb (strictEquals w (js "__proto__")))
                 (words toLowerCase texts)))).
Proof.
  intros toLowerCase texts.
  rewrite <- (length_map keyword), extractTopKeywords_keywords, length_firstn.
  f_equal. rewrite <- wordCounts_keys.
  apply Permutation_length, ranked_keys_perm.
Qed.

(** ** Counts and ranks on pools that inherit nothing *)

Lemma ranking_entry (pool : list jsstring) (e : jsstring * N) :
  In e (ranking pool) ->
  In (fst e) pool /\ snd e = occurrences (fst e) pool /\ (1 <= snd e)%N.
Proof.
  intros H. apply Permutation_in with (1 := ranking_perm pool) in H.
  unfold tally in H. apply in_map_iff in H as (k & <- & Hk). simpl.
  apply (proj1 (firstOccurrences_In k pool)) in Hk. split; [exact Hk |].
  split; [reflexivity |].
  apply (proj2 (has_In pool k)) in Hk. apply occurrences_present in Hk. lia.
Qed.

Lemma In_firstn {A : Type} (n : nat) (a : A) (l : list A) :
  In a (firstn n l) -> In a l.
Proof.
  intros H. rewrite <- (firstn_skipn n l). apply in_or_app. now left.
Qed.

(** When no token of the pool names a property of [Object.prototype],
    every entry returned holds a keyword of the pool with the number of
    its occurrences there, which is at least one. *)
Theorem counts_are_occurrences :
  forall toLowerCase texts,
    inheritsNothing (words toLowerCase texts) = true ->
    Forall
      (fun e =>
         In (keyword e) (words toLowerCase texts)
         /\ count e
            = VNumber (occurrences (keyword e) (words toLowerCase texts))
         /\ (1 <= occurrences (keyword e) (words toLowerCase texts))%N)
      (extractTopKeywords toLowerCase texts).
Proof.
  intros toLowerCase texts H.
  rewrite (extractTopKeywords_ranking _ _ H).
  apply Forall_forall. intros e He.
  apply in_map_iff in He as ([k n] & <- & Hin). cbn [keyword count fst snd].
  apply In_firstn, ranking_entry in Hin as (Hk & Hn & Hpos).
  cbn [fst snd] in *. subst n. now repeat split.
Qed.

(** The counts of the two texts of the example: [cat] twice, the other
    keywords once. *)
Lemma counts_are_occurrences_witness :
  Forall
    (fun e =>
       In (keyword e)
         (words toLowerCaseAscii [js "the cat sat"; js "cat runs fast"])
       /\ count e
          = VNumber
              (occurrences (keyword e)
                 (words toLowerCaseAscii
                    [js "the cat sat"; js "cat runs fast"]))
       /\ (1 <= occurrences (keyword e)
                  (words toLowerCaseAscii
                     [js "the cat sat"; js "cat runs fast"]))%N)
    (extractTopKeywords toLowerCaseAscii
       [js "the cat sat"; js "cat runs fast"]).
Proof.
  apply (counts_are_occurrences toLowerCaseAscii
           [js "the cat sat"; js "cat runs fast"]).
  reflexivity.
Defined.

Lemma StronglySorted_app_inv {A : Type} (R : A -> A -> Prop)
  (l1 l2 : list A) :
  StronglySorted R (l1 ++ l2) ->
  forall a b, In a l1 -> In b l2 -> R a b.
Proof.
  induction l1 as [| x l1 IH]; simpl; intros S a b Ha Hb; [contradiction |].
  apply StronglySorted_inv in S as [S Hx]. destruct Ha as [-> | Ha].
  - rewrite Forall_forall in Hx. apply Hx, in_or_app. now right.
  - now apply IH.
Qed.

(** When no token of the pool names a property of [Object.prototype], the
    result holds the most frequent tokens: a token of the pool that is not
    among the keywords returned occurs no more often than any keyword
    returned. *)
Theorem leftover_tokens_are_not_more_frequent :
  forall toLowerCase texts token e,
    inheritsNothing (words toLowerCase texts) = true ->
    In token (words toLowerCase texts) ->
    ~ In token (map keyword (extractTopKeywords toLowerCase texts)) ->
    In e (extractTopKeywords toLowerCase texts) ->
    exists n,
      count e = VNumber n
      /\ (occurrences token (words toLowerCase texts) <= n)%N.
Proof.
  intros toLowerCase texts token e H Htoken Hout He.
  rewrite (extractTopKeywords_ranking _ _ H) in Hout, He.
  set (pool := words toLowerCase texts) in *.
  apply in_map_iff in He as ([k n] & <- & Hin). cbn [count snd].
  exists n. split; [reflexivity |].
  assert (In (token, occurrences token pool) (ranking pool)) as Hrank.
  { apply Permutation_in with (1 := Permutation_sym (ranking_perm pool)).
    unfold tally. apply in_map_iff. exists token. split; [reflexivity |].
    now apply firstOccurrences_In. }
  rewrite <- (firstn_skipn 10 (ranking pool)) in Hrank.
  apply in_app_or in Hrank as [Hfirst | Hrest].
  - exfalso. apply Hout. rewrite map_map. cbn [keyword].
    apply in_map_iff. now exists (token, occurrences token pool).
  - pose proof (ranking_sorted pool) as S.
    rewrite <- (firstn_skipn 10 (ranking pool)) in S.
    apply (StronglySorted_app_inv _ _ _ S (k, n)
             (token, occurrences token pool) Hin Hrest).
Qed.

(** In the sample text of twelve distinct tokens, [kkk] is not returned and
    occurs no more often than [lll], which is. *)
Lemma leftover_tokens_are_not_more_frequent_witness :
  exists n,
    VNumber 2 = VNumber n
    /\ (occurrences (js "kkk") (words toLowerCaseAscii [sampleLongText])
        <= n)%N.
Proof.
  apply (leftover_tokens_are_not_more_frequent toLowerCaseAscii
           [sampleLongText] (js "kkk")
           {| keyword := js "lll"; count := VNumber 2 |}).
  - reflexivity.
  - vm_compute. do 10 right. left. reflexivity.
  - vm_compute. intros H.
    repeat (destruct H as [H | H]; [discriminate H |]). exact H.
  - vm_compute. left. reflexivity.
Defined.

(** ** The confidence list and the distribution *)

(** The confidence list has one entry for every sentiment, and no entry is
    zero or NaN: such a confidence, like a missing one, has become 1. *)
Theorem confidenceScores_never_falsy :
  forall sentiments,
    List.length (confidenceScores sentiments) = List.length sentiments
    /\ Forall (fun c => is_zero c = false /\ is_nan c = false)
         (confidenceScores sentiments).
Proof.
  intros sentiments. unfold confidenceScores. split; [apply length_map |].
  apply Forall_forall. intros c Hc.
  apply in_map_iff in Hc as (s & <- & _). unfold confidenceOrOne.
  destruct (confidence s) as [v |]; [| split; reflexivity].
  unfold numberToBoolean.
  destruct (is_zero v) eqn:Hz; [split; reflexivity |].
  destruct (is_nan v) eqn:Hn; simpl; [split; reflexivity |].
  now rewrite Hz, Hn.
Qed.

(** Counting two batches of sentiments one after the other gives, for each
    bucket, the sum of the counts of the two batches. *)
Theorem distribution_app :
  forall first second,
    positive (distribution (first ++ second))
    = positive (distribution first) + positive (distribution second)
    /\ neutral (distribution (first ++ second))
       = neutral (distribution first) + neutral (distribution second)
    /\ negative (distribution (first ++ second))
       = negative (distribution first) + negative (distribution second).
Proof.
  intros first second. unfold distribution.
  set (zero := {| positive := 0; neutral := 0; negative := 0 |}).
  destruct (distribution_from (first ++ second) zero) as (Pa & Na & Ua).
  destruct (distribution_from first zero) as (Pf & Nf & Uf).
  destruct (distribution_from second zero) as (Ps & Ns & Us).
  cbv zeta in *. rewrite Pa, Na, Ua, Pf, Nf, Uf, Ps, Ns, Us.
  rewrite !filter_app, !length_app. simpl. repeat split; lia.
Qed.

(** ** The join of the scorer calls, when it succeeds *)

Lemma firstRejection_without_rejection {A : Type}
  (settled : list (nat * Completion A)) :
  forall best,
    (forall t e, ~ In (t, Throw e) settled) ->
    firstRejection best settled = best.
Proof.
  induction settled as [| [t [a | e]] rest IH]; intros best H; simpl.
  - reflexivity.
  - apply IH. intros t' e' Hin. apply (H t' e'). now right.
  - exfalso. apply (H t e). now left.
Qed.

Lemma fulfilled_mapFrom {A B : Type} (f : nat -> A -> nat * Completion B)
  (l : list A) :
  forall i,
    (forall t e, ~ In (t, Throw e) (mapFrom f i l)) ->
    List.length (fulfilled (mapFrom f i l)) = List.length l
    /\ forall j v,
        nth_error l j = Some v ->
        exists t b,
          f (i + j) v = (t, Normal b)
          /\ nth_error (fulfilled (mapFrom f i l)) j = Some b.
Proof.
  induction l as [| v l IH]; intros i H; simpl.
  - split; [reflexivity |]. intros [| j] w Hj; discriminate Hj.
  - destruct (f i v) as [t [b | e]] eqn:Hv.
    + destruct (IH (S i)) as [Hlen Hnth].
      { intros t' e' Hin. apply (H t' e'). simpl. rewrite Hv. now right. }
      split; [simpl; now rewrite Hlen |].
      intros [| j] w Hj; simpl in Hj.
      * injection Hj as <-. exists t, b. rewrite Nat.add_0_r. now split.
      * destruct (Hnth j w Hj) as (t' & b' & Hf & Hb).
        exists t', b'. rewrite <- plus_n_Sm. now split.
    + exfalso. apply (H t e). simpl. rewrite Hv. now left.
Qed.

Lemma firstRejection_In {A : Type} (settled : list (nat * Completion A)) :
  forall best t e,
    firstRejection best settled = Some (t, e) ->
    best = Some (t, e) \/ In (t, Throw e) settled.
Proof.
  induction settled as [| [t1 [a | e1]] rest IH]; intros best t e H;
    simpl in H.
  - now left.
  - destruct (IH _ _ _ H) as [Hb | Hin]; [now left | right; now right].
  - assert (forall b,
              firstRejection b rest = Some (t, e) ->
              b = best \/ b = Some (t1, e1) ->
              best = Some (t, e) \/ In (t, Throw e) ((t1, Throw e1) :: rest))
      as step.
    { intros b Hb Hcase. destruct (IH _ _ _ Hb) as [E | Hin].
      - destruct Hcase as [-> | ->]; [now left |].
        injection E as -> ->. right. now left.
      - right. now right. }
    destruct best as [[t0 e0] |].
    + destruct (t1 <? t0); eapply step; eauto.
    + eapply step; eauto.
Qed.

Lemma promiseAll_fulfils_inv {A : Type} (settled : list (nat * Completion A))
  (values : list A) :
  promiseAll settled = Normal values ->
  (forall t e, ~ In (t, Throw e) settled) /\ values = fulfilled settled.
Proof.
  unfold promiseAll. intros H. split.
  - intros t e Hin.
    destruct (firstRejection_earliest settled None)
      as (t' & e' & Hf & _); [right; now exists t, e |].
    rewrite Hf in H. discriminate H.
  - destruct (firstRejection None settled) as [[t e] |];
      [discriminate H | now injection H].
Qed.

(** The join of the scorer calls is rejected exactly when one of the calls
    is; otherwise it yields one sentiment for every post, the [i]-th being
    the answer to the call made for the [i]-th post. *)
Theorem scoreAll_outcome :
  forall (analyzeSentiment : nat -> jsstring -> nat * Completion SentimentResult)
         (fetchedPosts : list Post),
    ((exists error, scoreAll analyzeSentiment fetchedPosts = Throw error)
     <-> exists i post t e,
          nth_error fetchedPosts i = Some post
          /\ analyzeSentiment i (text post) = (t, Throw e))
    /\ forall sentiments,
        scoreAll analyzeSentiment fetchedPosts = Normal sentiments ->
        List.length sentiments = List.length fetchedPosts
        /\ forall i post,
            nth_error fetchedPosts i = Some post ->
            exists t s,
              analyzeSentiment i (text post) = (t, Normal s)
              /\ nth_error sentiments i = Some s.
Proof.
  intros analyzeSentiment fetchedPosts. unfold scoreAll.
  set (call := fun (i : nat) (post : Post) => analyzeSentiment i (text post)).
  split; [split |].
  - intros (error & H). unfold promiseAll in H.
    destruct (firstRejection None (mapFrom call 0 fetchedPosts))
      as [[t e] |] eqn:Hf; [| discriminate H].
    apply firstRejection_In in Hf as [Hb | Hin]; [discriminate Hb |].
    apply mapFrom_In in Hin as (i & post & Hp & Hs).
    exists i, post, t, e. now split.
  - intros (i & post & t & e & Hp & Hs).
    destruct (promiseAll_rejects (mapFrom call 0 fetchedPosts))
      as (t' & e' & H & _).
    + exists t, e. apply mapFrom_In. exists i, post. now split.
    + now exists e'.
  - intros sentiments H.
    apply promiseAll_fulfils_inv in H as [Hno ->].
    destruct (fulfilled_mapFrom call fetchedPosts 0 Hno) as [Hlen Hnth].
    split; [exact Hlen |]. intros i post Hp. now apply Hnth.
Qed.

(** ** Every run of the handler *)

(** Every run of the handler keeps the query and raises exactly one toast.
    The toast is the success toast only when the fetch, every scorer call
    and the aggregation have succeeded, and then the state holds the
    fetched posts and their aggregate; with an error toast the analysis
    state is the one from before the run. After a run on a query that is
    not blank both busy flags are false. *)
Theorem handleAnalyze_outcome :
  forall toLowerCase (Date : Type) (newDate : jsstring -> Date)
         formatDistance (clock : nat -> Date) fetchTweets analyzeSentiment
         (st : State),
    let result :=
      handleAnalyze toLowerCase newDate formatDistance clock fetchTweets
        analyzeSentiment st in
    query (fst result) = query st
    /\ ((exists fetchedPosts sentiments data,
            fetchTweets (query st) = Normal fetchedPosts
            /\ scoreAll analyzeSentiment fetchedPosts = Normal sentiments
            /\ aggregate toLowerCase newDate formatDistance clock
                 fetchedPosts sentiments = Normal data
            /\ snd result = [ToastSuccess (js "Analysis complete!")]
            /\ posts (fst result) = fetchedPosts
            /\ sentimentData (fst result) = data)
        \/ (exists message,
               snd result = [ToastError message]
               /\ sentimentData (fst result) = sentimentData st))
    /\ (trim (query st) <> [] ->
        loading (fst result) = false /\ analyzing (fst result) = false).
Proof.
  intros toLowerCase Date newDate formatDistance clock fetchTweets
    analyzeSentiment st. cbv zeta. unfold handleAnalyze.
  destruct (trim (query st)) as [| c rest] eqn:Hq.
  - cbn [fst snd]. split; [reflexivity |]. split; [| congruence].
    right. eexists. split; reflexivity.
  - unfold tryBody. cbn [query setLoading].
    destruct (fetchTweets (query st)) as [fetchedPosts | error] eqn:Hf.
    + destruct (scoreAll analyzeSentiment fetchedPosts)
        as [sentiments | error] eqn:Hs; cbn [bind].
      * destruct (aggregate toLowerCase newDate formatDistance clock
                    fetchedPosts sentiments) as [data | error] eqn:Ha.
        -- cbn. split; [reflexivity |]. split; [| now split].
           left. exists fetchedPosts, sentiments, data. now repeat split.
        -- cbn. split; [reflexivity |]. split; [| now split].
           right. eexists. split; reflexivity.
      * cbn. split; [reflexivity |]. split; [| now split].
        right. eexists. split; reflexivity.
    + cbn. split; [reflexivity |]. split; [| now split].
      right. eexists. split; reflexivity.
Qed.

(** When the handler starts with both busy flags false, as the disabled
    button ensures, and the fetch fails, the state at the end is the state
    at the start: the posts and the analysis shown before stay, and the
    toast carries the message of the fetch error. *)
Theorem fetch_failure_restores_state :
  forall toLowerCase (Date : Type) (newDate : jsstring -> Date)
         formatDistance (clock : nat -> Date) fetchTweets analyzeSentiment
         (st : State) (error : thrown),
    loading st = false -> analyzing st = false ->
    trim (query st) <> [] ->
    fetchTweets (query st) = Throw error ->
    handleAnalyze toLowerCase newDate formatDistance clock fetchTweets
      analyzeSentiment st
    = (st, [ToastError (errorMessage error)]).
Proof.
  intros toLowerCase Date newDate formatDistance clock fetchTweets
    analyzeSentiment st error Hl Ha Hq Hf.
  rewrite (handleAnalyze_fetch_failure toLowerCase Date newDate
             formatDistance clock fetchTweets analyzeSentiment st error
             Hq Hf).
  destruct st as [q p l a d]. simpl in Hl, Ha. subst. reflexivity.
Qed.

(** The failed fetch of the sample environment leaves the sample state. *)
Lemma fetch_failure_restores_state_witness :
  handleAnalyze toLowerCaseAscii sampleNewDate sampleFormatDistance
    steadyClock sampleFailingFetch sampleScorer sampleState
  = (sampleState, [ToastError (js "401 Unauthorized")]).
Proof.
  apply (fetch_failure_restores_state toLowerCaseAscii Z sampleNewDate
           sampleFormatDistance steadyClock sampleFailingFetch sampleScorer
           sampleState (ErrorObject (js "401 Unauthorized"))).
  - reflexivity.
  - reflexivity.
  - vm_compute. discriminate.
  - reflexivity.
Defined.

Section SuccessfulRun.

Variable toLowerCase : jsstring -> jsstring.
Variable Date : Type.
Variable newDate : jsstring -> Date.
Variable formatDistance : Date -> Date -> Completion jsstring.
Variable clock : nat -> Date.

(** The series is built when every sentiment has its post and every label
    can be formatted. *)
Lemma sentimentOverTimeFrom_succeeds (fetchedPosts : list Post)
  (sentiments : list SentimentResult) :
  forall i,
    (forall j,
        j < List.length sentiments ->
        exists post label,
          nth_error fetchedPosts (i + j) = Some post
          /\ formatDistance (newDate (created_at post)) (clock (i + j))
             = Normal label) ->
    exists points,
      sentimentOverTimeFrom newDate formatDistance clock fetchedPosts i
        sentiments = Normal points
      /\ List.length points = List.length sentiments.
Proof.
  induction sentiments as [| s rest IH]; intros i H; simpl.
  - now exists [].
  - destruct (H 0) as (post & label & Hp & Hl); [simpl; lia |].
    rewrite Nat.add_0_r in Hp, Hl. rewrite Hp, Hl. simpl.
    destruct (IH (S i)) as (points & Hpts & Hlen).
    { intros j Hj. destruct (H (S j)) as (p & l & Hp' & Hl');
        [simpl; lia |].
      rewrite <- plus_n_Sm in Hp', Hl'. now exists p, l. }
    rewrite Hpts. simpl. eexists. split; [reflexivity |].
    simpl. now rewrite Hlen.
Qed.

End SuccessfulRun.

(** When the query is not blank, the fetch succeeds, every scorer call
    succeeds and every label can be formatted, the run ends with the
    success toast; the state then holds the fetched posts and an aggregate
    with one point and one confidence for every post. The handler never
    looks up a post that is missing: sentiments and posts have the same
    length. *)
Theorem run_succeeds :
  forall toLowerCase (Date : Type) (newDate : jsstring -> Date)
         formatDistance (clock : nat -> Date) fetchTweets analyzeSentiment
         (st : State) (fetchedPosts : list Post),
    trim (query st) <> [] ->
    fetchTweets (query st) = Normal fetchedPosts ->
    (forall i post,
        nth_error fetchedPosts i = Some post ->
        exists t s, analyzeSentiment i (text post) = (t, Normal s)) ->
    (forall i post,
        nth_error fetchedPosts i = Some post ->
        exists label,
          formatDistance (newDate (created_at post)) (clock i)
          = Normal label) ->
    exists sentiments data,
      handleAnalyze toLowerCase newDate formatDistance clock fetchTweets
        analyzeSentiment st
      = ({| query := query st; posts := fetchedPosts; loading := false;
            analyzing := false; sentimentData := data |},
         [ToastSuccess (js "Analysis complete!")])
      /\ List.length sentiments = List.length fetchedPosts
      /\ SentimentData.overallScore data = overallScore sentiments
      /\ List.length (SentimentData.sentimentOverTime data)
         = List.length fetchedPosts
      /\ List.length (SentimentData.confidenceScores data)
         = List.length fetchedPosts
      /\ SentimentData.topKeywords data
         = extractTopKeywords toLowerCase (map text fetchedPosts).
Proof.
  intros toLowerCase Date newDate formatDistance clock fetchTweets
    analyzeSentiment st fetchedPosts Hq Hf Hscore Hlabel.
  set (call := fun (i : nat) (post : Post) => analyzeSentiment i (text post)).
  assert (Hno : forall t e, ~ In (t, Throw e) (mapFrom call 0 fetchedPosts)).
  { intros t e Hin. apply mapFrom_In in Hin as (i & post & Hp & Hs).
    destruct (Hscore i post Hp) as (t' & s & Hok).
    unfold call in Hs. simpl in Hs. rewrite Hok in Hs. discriminate Hs. }
  destruct (fulfilled_mapFrom call fetchedPosts 0 Hno) as [Hlen _].
  set (sentiments := fulfilled (mapFrom call 0 fetchedPosts)) in *.
  assert (Hall : scoreAll analyzeSentiment fetchedPosts = Normal sentiments).
  { unfold scoreAll, promiseAll. fold call.
    now rewrite (firstRejection_without_rejection _ None Hno). }
  destruct (sentimentOverTimeFrom_succeeds Date newDate formatDistance clock
              fetchedPosts sentiments 0) as (points & Hpoints & Hplen).
  { intros j Hj. rewrite Hlen in Hj. simpl.
    destruct (nth_error fetchedPosts j) as [post |] eqn:Hp.
    - destruct (Hlabel j post Hp) as (label & Hl). now exists post, label.
    - apply nth_error_None in Hp. lia. }
  exists sentiments.
  eexists. split; [| split; [exact Hlen | ]].
  - apply (handleAnalyze_success toLowerCase Date newDate formatDistance
             clock fetchTweets analyzeSentiment st fetchedPosts sentiments
             _ Hq Hf Hall).
    unfold aggregate, sentimentOverTime. rewrite Hpoints. reflexivity.
  - cbn. repeat split; try reflexivity.
    + now rewrite Hplen.
    + unfold confidenceScores. now rewrite length_map.
Qed.

(** The successful run of the sample environment. *)
Lemma run_succeeds_witness :
  exists sentiments data,
    handleAnalyze toLowerCaseAscii sampleNewDate sampleFormatDistance
      steadyClock sampleFetchTweets sampleScorer sampleState
    = ({| query := query sampleState; posts := samplePosts; loading := false;
          analyzing := false; sentimentData := data |},
       [ToastSuccess (js "Analysis complete!")])
    /\ List.length sentiments = List.length samplePosts
    /\ SentimentData.overallScore data = overallScore sentiments
    /\ List.length (SentimentData.sentimentOverTime data)
       = List.length samplePosts
    /\ List.length (SentimentData.confidenceScores data)
       = List.length samplePosts
    /\ SentimentData.topKeywords data
       = extractTopKeywords toLowerCaseAscii (map text samplePosts).
Proof.
  apply (run_succeeds toLowerCaseAscii Z sampleNewDate sampleFormatDistance
           steadyClock sampleFetchTweets sampleScorer sampleState
           samplePosts).
  - vm_compute. discriminate.
  - reflexivity.
  - intros i post _. eexists. eexists. reflexivity.
  - intros i post _. unfold sampleFormatDistance, steadyClock.
    destruct (30 - sampleNewDate (created_at post) <? 60)%Z;
      eexists; reflexivity.
Defined.

(** When the fetch finds no post, the run still ends with the success
    toast: the analysis state is replaced by an aggregate whose overall
    score is NaN and whose lists are empty, and the panel of results is not
    rendered. *)
Theorem empty_fetch_succeeds :
  forall toLowerCase (Date : Type) (newDate : jsstring -> Date)
         formatDistance (clock : nat -> Date) fetchTweets analyzeSentiment
         (st : State),
    trim (query st) <> [] ->
    fetchTweets (query st) = Normal [] ->
    let result :=
      handleAnalyze toLowerCase newDate formatDistance clock fetchTweets
        analyzeSentiment st in
    result
    = ({| query := query st; posts := []; loading := false;
          analyzing := false;
          sentimentData :=
            {| SentimentData.overallScore := nan;
               SentimentData.sentimentOverTime := [];
               SentimentData.sentimentDistribution :=
                 {| positive := 0; neutral := 0; negative := 0 |};
               SentimentData.confidenceScores := [];
               SentimentData.topKeywords := [] |} |},
       [ToastSuccess (js "Analysis complete!")])
    /\ displayed (fst result) = None.
Proof.
  intros toLowerCase Date newDate formatDistance clock fetchTweets
    analyzeSentiment st Hq Hf. cbv zeta.
  rewrite (handleAnalyze_success toLowerCase Date newDate formatDistance
             clock fetchTweets analyzeSentiment st [] [] _ Hq Hf eq_refl
             eq_refl).
  split; reflexivity.
Qed.

(** The empty fetch from the sample state. *)
Lemma empty_fetch_succeeds_witness :
  displayed
    (fst (handleAnalyze toLowerCaseAscii sampleNewDate sampleFormatDistance
            steadyClock sampleEmptyFetch sampleScorer sampleState))
  = None.
Proof.
  apply (empty_fetch_succeeds toLowerCaseAscii Z sampleNewDate
           sampleFormatDistance steadyClock sampleEmptyFetch sampleScorer
           sampleState).
  - vm_compute. discriminate.
  - reflexivity.
Defined.

(** ** The rewrites of the proxy *)

Lemma stripPrefix_app (prefix rest : jsstring) :
  stripPrefix prefix (prefix ++ rest) = Some rest.
Proof.
  induction prefix as [| p prefix IH]; simpl; [reflexivity |].
  now rewrite N.eqb_refl.
Qed.

Lemma stripPrefix_Some (prefix s rest : jsstring) :
  stripPrefix prefix s = Some rest -> s = prefix ++ rest.
Proof.
  revert s. induction prefix as [| p prefix IH]; intros s; simpl.
  - intros H. now injection H.
  - destruct s as [| c s]; [discriminate |].
    destruct (p =? c)%N eqn:E; [| discriminate].
    apply N.eqb_eq in E. subst c. intros H. f_equal. now apply IH.
Qed.

(** Each rewrite of the proxy removes its own prefix, once, from a path
    that starts with it and returns every other path unchanged; so the
    path it returns is always the end of the path it was given, and a path
    of one of the two upstreams goes through the rewrite of the other
    untouched. *)
Theorem proxy_rewrites :
  (forall rest, rewriteTwitter (js "/api/twitter" ++ rest) = rest)
  /\ (forall rest, rewriteGemini (js "/api/gemini" ++ rest) = rest)
  /\ (forall path,
        (exists rest, path = js "/api/twitter" ++ rest)
        \/ rewriteTwitter path = path)
  /\ (forall path,
        (exists rest, path = js "/api/gemini" ++ rest)
        \/ rewriteGemini path = path)
  /\ (forall path,
        exists removed,
          path = removed ++ rewriteTwitter path
          /\ (removed = [] \/ removed = js "/api/twitter"))
  /\ (forall path,
        exists removed,
          path = removed ++ rewriteGemini path
          /\ (removed = [] \/ removed = js "/api/gemini"))
  /\ (forall rest,
        rewriteTwitter (js "/api/gemini" ++ rest) = js "/api/gemini" ++ rest)
  /\ (forall rest,
        rewriteGemini (js "/api/twitter" ++ rest) = js "/api/twitter" ++ rest).
Proof.
  assert (strip : forall literal rest,
            removeLeading literal (literal ++ rest) = rest).
  { intros literal rest. unfold removeLeading.
    now rewrite stripPrefix_app. }
  assert (cases : forall literal path,
            (exists rest, path = literal ++ rest)
            \/ removeLeading literal path = path).
  { intros literal path. unfold removeLeading.
    destruct (stripPrefix literal path) as [rest |] eqn:E.
    - left. exists rest. now apply stripPrefix_Some.
    - now right. }
  assert (suffix : forall literal path,
            exists removed,
              path = removed ++ removeLeading literal path
              /\ (removed = [] \/ removed = literal)).
  { intros literal path. unfold removeLeading.
    destruct (stripPrefix literal path) as [rest |] eqn:E.
    - exists literal. split; [now apply stripPrefix_Some | now right].
    - exists []. split; [reflexivity | now left]. }
  refine (conj _ (conj _ (conj _ (conj _ (conj _ (conj _ (conj _ _))))))).
  - intros rest. apply strip.
  - intros rest. apply strip.
  - intros path. apply cases.
  - intros path. apply cases.
  - intros path. apply suffix.
  - intros path. apply suffix.
  - intros rest. reflexivity.
  - intros rest. reflexivity.
Qed.
